(** * poetry-app: the SaluteSpeech token cache and the [speak] call

    A shallow embedding of [src/tts/tts_salute.py]: the class [Token]
    (credential, bearer token and expiry kept in class attributes) and the
    function [speak] (voice validation, synthesis request, WAV decoding,
    playback).  The PyQt form is a caller of [speak] and is not modelled.

    Python's effects are made explicit: a computation reads an external
    [World] (environment variable, clock, HTTP peer), threads the class
    attributes of [Token] and appends the effects it performs to a trace. *)

From Stdlib Require Import ZArith List String Bool Lia.
From Stdlib Require Import DecimalString.
From Stdlib.Strings Require Import Byte.
Import ListNotations.

Local Open Scope Z_scope.
Local Open Scope string_scope.

(** ** Python values and exceptions *)

Module Py.

(** The dynamically typed values that reach the class attributes of
    [Token]: [None], a [str] or an [int].  They come from the decoded
    JSON body of the token endpoint, whose documented fields are a
    string and an integer. *)
Inductive value : Type :=
| VNone
| VStr (s : string)
| VInt (z : Z).

(** The exceptions the module and the library calls it makes can raise. *)
Inductive exn : Type :=
| Exception (msg : string)
| ValueError (msg : string)
| KeyError (key : string)
| TypeError
| JSONDecodeError
| RequestException
| wave_Error (msg : string)
| EOFError
| RuntimeError
| PortAudioError (msg : string).

(** [x is None] *)
Definition is_None (v : value) : bool :=
  match v with VNone => true | _ => false end.

(** [str(z)] for an [int]. *)
Definition str_int (z : Z) : string := NilZero.string_of_int (Z.to_int z).

(** What an f-string substitutes for [{v}]. *)
Definition format (v : value) : string :=
  match v with
  | VNone => "None"
  | VStr s => s
  | VInt z => str_int z
  end.

(** The same for a value of type [str | None]. *)
Definition format_opt (o : option string) : string :=
  match o with
  | None => "None"
  | Some s => s
  end.

(** A [dict] with string keys, in insertion order. *)
Definition dict (V : Type) : Type := list (string * V).

Definition keys {V} (d : dict V) : list string := map fst d.

Fixpoint get {V} (d : dict V) (k : string) : option V :=
  match d with
  | [] => None
  | (k', v) :: d' => if String.eqb k' k then Some v else get d' k
  end.

(** [k in d.keys()] *)
Fixpoint contains (ks : list string) (k : string) : bool :=
  match ks with
  | [] => false
  | k' :: ks' => String.eqb k' k || contains ks' k
  end.

(** [sep.join(parts)] *)
Definition join (sep : string) (parts : list string) : string :=
  String.concat sep parts.

End Py.
Import Py.

(** ** The outside world and the effects *)

(** The [data=] argument of [requests.post]: a form dictionary or a text. *)
Inductive Data : Type :=
| Form (fields : dict string)
| Text (body : string).

(** One call of [requests.post(url, headers=..., data=..., verify=...)]. *)
Record Request : Type := mkRequest {
  url : string;
  headers : dict string;
  data : Data;
  verify : bool
}.

(** What the call hands back: [status_code], the raw [content], and the
    result of [response.json()] ([None] when the body does not decode). *)
Record Response : Type := mkResponse {
  status_code : Z;
  content : list byte;
  json : option (dict value)
}.

Inductive HttpResult : Type :=
| Reply (r : Response)
| TransportFailure.

(** Everything [tts_salute] reads from outside during one top-level call.
    [sd_play_error] is the audio device: [None] when [sd.play] plays the
    array to the end, [Some msg] when it raises [PortAudioError(msg)]
    (no device, a sample rate the device refuses). *)
Record World : Type := Build_World {
  environ_get : string -> option string;   (* os.environ.get *)
  now_ms : Z;                              (* int(time.time() * 1000) *)
  uuid4 : string;                          (* str(uuid.uuid4()) *)
  post : Request -> HttpResult;            (* requests.post *)
  sd_play_error : list Z -> Z -> option string   (* sd.play *)
}.

(** A world whose audio device plays whatever it is given. *)
Definition mkWorld (environ_get : string -> option string) (now_ms : Z)
  (uuid4 : string) (post : Request -> HttpResult) : World :=
  Build_World environ_get now_ms uuid4 post (fun _ _ => None).

(** The effects a call leaves behind, oldest first. *)
Inductive Event : Type :=
| EnvGet (name : string)
| HttpPost (req : Request)
| Play (audio : list Z) (samplerate : Z).

(** The class attributes of [Token]. *)
Record TokenCls : Type := mkTokenCls {
  _authdata : option string;
  _token : value;
  _expires_in : value
}.

(** The attributes as the class body initialises them. *)
Definition Token_initial : TokenCls :=
  {| _authdata := None; _token := VNone; _expires_in := VNone |}.

(** Computations: read the world, thread the class attributes, log the
    effects, and end with a value or a raised exception. *)
Definition M (A : Type) : Type :=
  World -> TokenCls -> (exn + A) * TokenCls * list Event.

Definition ret {A} (a : A) : M A := fun _ s => (inr a, s, []).

Definition raise {A} (e : exn) : M A := fun _ s => (inl e, s, []).

Definition bind {A B} (m : M A) (k : A -> M B) : M B :=
  fun w s =>
    match m w s with
    | (inl e, s1, t1) => (inl e, s1, t1)
    | (inr a, s1, t1) =>
        let '(r, s2, t2) := k a w s1 in (r, s2, (t1 ++ t2)%list)
    end.

Declare Scope py_scope.
Delimit Scope py_scope with py.
Notation "x <- m ;; k" := (bind m (fun x => k))
  (at level 61, m at next level, right associativity) : py_scope.
Notation "m ;;; k" := (bind m (fun _ => k))
  (at level 61, right associativity) : py_scope.
Local Open Scope py_scope.

Definition outcome {A} (r : (exn + A) * TokenCls * list Event) : exn + A :=
  fst (fst r).
Definition final {A} (r : (exn + A) * TokenCls * list Event) : TokenCls :=
  snd (fst r).
Definition trace {A} (r : (exn + A) * TokenCls * list Event) : list Event :=
  snd r.

Definition get_cls : M TokenCls := fun _ s => (inr s, s, []).

Definition set_authdata (a : option string) : M unit :=
  fun _ s => (inr tt, {| _authdata := a; _token := _token s;
                         _expires_in := _expires_in s |}, []).

Definition set_token_expires (t e : value) : M unit :=
  fun _ s => (inr tt, {| _authdata := _authdata s; _token := t;
                         _expires_in := e |}, []).

Definition os_environ_get (name : string) : M (option string) :=
  fun w s => (inr (environ_get w name), s, [EnvGet name]).

Definition time_ms : M Z := fun w s => (inr (now_ms w), s, []).

Definition uuid_uuid4 : M string := fun w s => (inr (uuid4 w), s, []).

Definition requests_post (req : Request) : M Response :=
  fun w s =>
    match post w req with
    | Reply r => (inr r, s, [HttpPost req])
    | TransportFailure => (inl RequestException, s, [HttpPost req])
    end.

(** What a call of [sd.play] ends in. *)
Definition play_result (w : World) (audio : list Z) (samplerate : Z)
  : exn + unit :=
  match sd_play_error w audio samplerate with
  | None => inr tt
  | Some msg => inl (PortAudioError msg)
  end.

(** [sd.play(audio, samplerate=..., blocking=True)]: the call is logged
    as [Play], whether the device then plays or raises. *)
Definition sd_play (audio : list Z) (samplerate : Z) : M unit :=
  fun w s => (play_result w audio samplerate, s, [Play audio samplerate]).

(** [d[k]], raising [KeyError] *)
Definition getitem {V} (d : dict V) (k : string) : M V :=
  match Py.get d k with
  | Some v => ret v
  | None => raise (KeyError k)
  end.

(** [response.json()] *)
Definition response_json (r : Response) : M (dict value) :=
  match json r with
  | Some d => ret d
  | None => raise JSONDecodeError
  end.

(** ** class Token *)

Module Token.

(** [get_authdata]: fill [_authdata] from the environment while it is
    [None], then return it. *)
Definition get_authdata : M (option string) :=
  cls <- get_cls ;;
  (match _authdata cls with
   | None =>
       v <- os_environ_get "SALUTESPEECH_API_KEY" ;;
       set_authdata v
   | Some _ => ret tt
   end) ;;;
  cls <- get_cls ;;
  ret (_authdata cls).

(** [__request_for_new_token__]: one POST to the OAuth endpoint; the
    token and its expiry on status 200, [Exception] otherwise. *)
Definition __request_for_new_token__ : M (value * value) :=
  let url := "https://ngw.devices.sberbank.ru:9443/api/v2/oauth" in
  authdata <- get_authdata ;;
  rquid <- uuid_uuid4 ;;
  let headers :=
    [ ("Authorization", "Basic " ++ format_opt authdata);
      ("RqUID", rquid);
      ("Content-Type", "application/x-www-form-urlencoded") ] in
  let data := Form [ ("scope", "SALUTE_SPEECH_PERS") ] in
  response <- requests_post (mkRequest url headers data false) ;;
  if (status_code response =? 200)%Z then
    response_data <- response_json response ;;
    access_token <- getitem response_data "access_token" ;;
    expires_at <- getitem response_data "expires_at" ;;
    ret (access_token, expires_at)
  else
    raise (Exception "Failed to obtain token").

(** The second disjunct of the condition in [get_token], evaluated only
    when [_token] is not [None]:
    [_expires_in is not None and _expires_in < int(time.time()*1000) - 2000].
    Comparing a [str] with an [int] raises [TypeError]. *)
Definition expired (expires_in : value) : M bool :=
  match expires_in with
  | VNone => ret false
  | VInt e => now <- time_ms ;; ret (e <? now - 2000)%Z
  | VStr _ => _ <- time_ms ;; raise TypeError
  end.

(** [get_token] *)
Definition get_token : M value :=
  cls <- get_cls ;;
  refresh <- (if is_None (_token cls) then ret true
              else expired (_expires_in cls)) ;;
  (if refresh : bool then
     te <- __request_for_new_token__ ;;
     set_token_expires (fst te) (snd te)
   else ret tt) ;;;
  cls <- get_cls ;;
  ret (_token cls).

End Token.

(** ** Bytes *)

(** [b"..."] *)
Definition b (s : string) : list byte := list_byte_of_string s.

Fixpoint bytes_eqb (x y : list byte) : bool :=
  match x, y with
  | [], [] => true
  | a :: x', c :: y' => Byte.eqb a c && bytes_eqb x' y'
  | _, _ => false
  end.

Definition Z_of_byte (x : byte) : Z := Z.of_N (Byte.to_N x).

(** [struct.unpack("<H" / "<L", bs)]: little-endian unsigned. *)
Fixpoint le_uint (bs : list byte) : Z :=
  match bs with
  | [] => 0
  | x :: bs' => Z_of_byte x + 256 * le_uint bs'
  end.

(** [bs[i:i+n]] *)
Definition slice (bs : list byte) (i n : nat) : list byte :=
  firstn n (skipn i bs).

(** ** The standard library's [wave] reader

    [speak] hands the response body to [wave.open(io.BytesIO(...), "rb")].
    The reader is CPython's [wave.Wave_read] over its [Chunk] class, as
    of CPython 3.11: only the format tag [WAVE_FORMAT_PCM] is accepted. *)

Module Wave.

(** What [Chunk] needs from the file under it.  [seek_cur] is
    [seek(n, 1)] with [n >= 0]; [None] stands for [RuntimeError]. *)
Class FileLike (F : Type) : Type := {
  read : F -> Z -> list byte * F;
  seek_cur : F -> Z -> option F
}.

(** [io.BytesIO], as the bytes from the current position on.  Reading
    or seeking past the end is allowed and yields nothing. *)
Definition BytesIO : Type := list byte.

Definition upto (n : Z) (f : BytesIO) : nat :=
  Z.to_nat (Z.min n (Z.of_nat (List.length f))).

#[export] Instance BytesIO_FileLike : FileLike BytesIO := {|
  read f n := (firstn (upto n f) f, skipn (upto n f) f);
  seek_cur f n := Some (skipn (upto n f) f)
|}.

Record Chunk (F : Type) : Type := mkChunk {
  chunkname : list byte;
  file : F;
  chunksize : Z;
  size_read : Z
}.
Arguments mkChunk {F}.
Arguments chunkname {F}.
Arguments file {F}.
Arguments chunksize {F}.
Arguments size_read {F}.

Section Chunk.
Context {F : Type} `{FileLike F}.

(** [Chunk(file, bigendian=0)]; [None] stands for [EOFError]. *)
Definition Chunk_init (f : F) : option (Chunk F) :=
  let (name, f1) := read f 4 in
  if (List.length name <? 4)%nat then None
  else
    let (sz, f2) := read f1 4 in
    if (List.length sz <? 4)%nat then None
    else Some (mkChunk name f2 (le_uint sz) 0).

(** [chunk.read(size)], [size >= 0]; a chunk of odd size is followed
    by one pad byte, consumed with its last byte. *)
Definition Chunk_read (c : Chunk F) (size : Z) : list byte * Chunk F :=
  if (chunksize c <=? size_read c)%Z then ([], c)
  else
    let size := Z.min size (chunksize c - size_read c) in
    let (data, f1) := read (file c) size in
    let sr := size_read c + Z.of_nat (List.length data) in
    if (sr =? chunksize c)%Z && Z.odd (chunksize c) then
      let (dummy, f2) := read f1 1 in
      (data, mkChunk (chunkname c) f2 (chunksize c)
                     (sr + Z.of_nat (List.length dummy)))
    else (data, mkChunk (chunkname c) f1 (chunksize c) sr).

(** [chunk.seek(n, 1)]; the file under the chunk stands at the
    chunk's offset plus [size_read]. *)
Definition Chunk_seek_cur (c : Chunk F) (n : Z) : option (Chunk F) :=
  let pos := n + size_read c in
  if (pos <? 0)%Z || (chunksize c <? pos)%Z then None
  else
    match seek_cur (file c) n with
    | Some f => Some (mkChunk (chunkname c) f (chunksize c) pos)
    | None => None
    end.

(** [chunk.skip()]: the file under the chunk, moved to the chunk's
    end (and past its pad byte). *)
Definition Chunk_skip (c : Chunk F) : option F :=
  let n := chunksize c - size_read c in
  let n := if Z.odd (chunksize c) then n + 1 else n in
  seek_cur (file c) n.
End Chunk.

#[export] Instance Chunk_FileLike {F} `{FileLike F} : FileLike (Chunk F) := {|
  read := Chunk_read;
  seek_cur := Chunk_seek_cur
|}.

(** The RIFF chunk over the body, and a chunk inside it. *)
Definition Riff : Type := Chunk BytesIO.
Definition SubChunk : Type := Chunk Riff.

Record Fmt : Type := mkFmt {
  fmt_nchannels : Z;
  fmt_framerate : Z;
  fmt_sampwidth : Z;
  fmt_framesize : Z
}.

Record Wave_read : Type := mkWave_read {
  _fmt : Fmt;
  _nframes : Z;
  _data_chunk : SubChunk
}.

Definition WAVE_FORMAT_PCM : Z := 1.

(** [_read_fmt_chunk] *)
Definition _read_fmt_chunk (chunk : SubChunk) : exn + Fmt * SubChunk :=
  let (hdr, chunk1) := Chunk_read chunk 14 in
  if (List.length hdr <? 14)%nat then inl EOFError
  else
    let wFormatTag := le_uint (slice hdr 0 2) in
    let nchannels := le_uint (slice hdr 2 2) in
    let framerate := le_uint (slice hdr 4 4) in
    if (wFormatTag =? WAVE_FORMAT_PCM)%Z then
      let (bits, chunk2) := Chunk_read chunk1 2 in
      if (List.length bits <? 2)%nat then inl EOFError
      else
        let sampwidth := (le_uint bits + 7) / 8 in
        if (sampwidth =? 0)%Z then inl (wave_Error "bad sample width")
        else if (nchannels =? 0)%Z then inl (wave_Error "bad # of channels")
        else inr (mkFmt nchannels framerate sampwidth
                        (nchannels * sampwidth), chunk2)
    else inl (wave_Error ("unknown format: " ++ str_int wFormatTag)).

(** The [while 1] loop of [initfp].  Every round consumes at least the
    eight header bytes of a chunk, so [fuel] beyond the length of the
    body is never used up. *)
Fixpoint read_chunks (fuel : nat) (riff : Riff) (fmt : option Fmt)
  : exn + Wave_read :=
  match fuel with
  | O => inl (wave_Error "fmt chunk and/or data chunk missing")
  | S fuel' =>
      match Chunk_init riff with
      | None => inl (wave_Error "fmt chunk and/or data chunk missing")
      | Some chunk =>
          if bytes_eqb (chunkname chunk) (b "fmt ") then
            match _read_fmt_chunk chunk with
            | inl e => inl e
            | inr (fmt', chunk') =>
                match Chunk_skip chunk' with
                | Some riff' => read_chunks fuel' riff' (Some fmt')
                | None => inl RuntimeError
                end
            end
          else if bytes_eqb (chunkname chunk) (b "data") then
            match fmt with
            | None => inl (wave_Error "data chunk before fmt chunk")
            | Some fm =>
                inr (mkWave_read fm (chunksize chunk / fmt_framesize fm)
                                 chunk)
            end
          else
            match Chunk_skip chunk with
            | Some riff' => read_chunks fuel' riff' fmt
            | None => inl RuntimeError
            end
      end
  end.

(** [wave.open(io.BytesIO(content), "rb")] *)
Definition open (content : list byte) : exn + Wave_read :=
  match Chunk_init (content : BytesIO) with
  | None => inl EOFError
  | Some riff =>
      if negb (bytes_eqb (chunkname riff) (b "RIFF")) then
        inl (wave_Error "file does not start with RIFF id")
      else
        let (form, riff1) := Chunk_read riff 4 in
        if negb (bytes_eqb form (b "WAVE")) then
          inl (wave_Error "not a WAVE file")
        else read_chunks (S (List.length content)) riff1 None
  end.

Definition getframerate (w : Wave_read) : Z := fmt_framerate (_fmt w).

Definition getnframes (w : Wave_read) : Z := _nframes w.

(** [readframes(nframes)], first read after [open].  On a big-endian
    host the reader swaps the bytes of each sample, so that the result
    is in host order; the model keeps the file's little-endian order
    and [np_frombuffer_int16] below reads it as such. *)
Definition readframes (w : Wave_read) (nframes : Z) : list byte :=
  if (nframes =? 0)%Z then []
  else fst (Chunk_read (_data_chunk w) (nframes * fmt_framesize (_fmt w))).

End Wave.

(** ** numpy and sounddevice *)

Definition signed16 (u : Z) : Z := if (u <? 32768)%Z then u else u - 65536.

(** [np.frombuffer(buf, dtype=np.int16)]: [None] when the length of the
    buffer is not a multiple of the element size ([ValueError]). *)
Fixpoint frombuffer_int16 (buf : list byte) : option (list Z) :=
  match buf with
  | [] => Some []
  | lo :: hi :: buf' =>
      match frombuffer_int16 buf' with
      | Some a => Some (signed16 (le_uint [lo; hi]) :: a)
      | None => None
      end
  | [_] => None
  end.

Definition np_frombuffer_int16 (buf : list byte) : M (list Z) :=
  match frombuffer_int16 buf with
  | Some a => ret a
  | None =>
      raise (ValueError "buffer size must be a multiple of element size")
  end.

Definition wave_open (body : list byte) : M Wave.Wave_read :=
  match Wave.open body with
  | inr w => ret w
  | inl e => raise e
  end.

(** ** speak *)

Definition valid_voices : dict string :=
  [ ("Наталья", "Nec");
    ("Александра", "Ost");
    ("Борис", "Bys");
    ("Марфа", "May");
    ("Тарас", "Tur");
    ("Сергей", "Pon") ].

Definition synthesize_url : string :=
  "https://smartspeech.sber.ru/rest/v1/text:synthesize".

(** The request [speak] sends for a voice code, a token and a text. *)
Definition synthesize_request (code : string) (token : value) (text : string)
  : Request :=
  mkRequest (synthesize_url ++ "?voice=" ++ code ++ "_24000")
            [ ("Authorization", "Bearer " ++ format token);
              ("Content-Type", "application/text") ]
            (Text text) false.

Definition invalid_voice_message (voice : string) : string :=
  "Недопустимое значение для параметра 'voice': " ++ voice
  ++ ". Допустимые значения: " ++ join ", " (keys valid_voices).

Definition speak (text voice : string) : M unit :=
  if negb (contains (keys valid_voices) voice) then
    raise (ValueError (invalid_voice_message voice))
  else
    token <- Token.get_token ;;
    code <- getitem valid_voices voice ;;
    response <- requests_post (synthesize_request code token text) ;;
    if (status_code response =? 200)%Z then
      wav_file <- wave_open (content response) ;;
      let sample_rate := Wave.getframerate wav_file in
      let audio_data := Wave.readframes wav_file (Wave.getnframes wav_file) in
      audio <- np_frombuffer_int16 audio_data ;;
      sd_play audio sample_rate
    else
      raise (Exception "Failed to synthesize speech").

(** ** The WAV fixture *)

Definition byte_of_Z (z : Z) : byte :=
  match Byte.of_N (Z.to_N (z mod 256)) with
  | Some x => x
  | None => x00
  end.

(** [n] bytes of [z], little-endian (two's complement for [z < 0]). *)
Fixpoint le_bytes (n : nat) (z : Z) : list byte :=
  match n with
  | O => []
  | S n' => byte_of_Z z :: le_bytes n' (z / 256)
  end.

Definition pcm16 (samples : list Z) : list byte :=
  flat_map (le_bytes 2) samples.

(** Modelled from the spec: the encoder of the synthetic WAV fixture is
    not part of the repository.  It writes the canonical container for
    uncompressed 16-bit PCM: a RIFF/WAVE header, a 16-byte [fmt ] chunk
    (format tag 1, channels, sample rate, byte rate, block align, 16 bits
    per sample) and a [data] chunk with the samples as signed 16-bit
    little-endian integers. *)
Definition wav_header (nchannels framerate datalen : Z) : list byte :=
  (b "RIFF" ++ le_bytes 4 (36 + datalen) ++ b "WAVE"
   ++ b "fmt " ++ le_bytes 4 16
   ++ le_bytes 2 1 ++ le_bytes 2 nchannels ++ le_bytes 4 framerate
   ++ le_bytes 4 (framerate * nchannels * 2) ++ le_bytes 2 (nchannels * 2)
   ++ le_bytes 2 16
   ++ b "data" ++ le_bytes 4 datalen)%list.

Definition wav_encode (nchannels framerate : Z) (samples : list Z)
  : list byte :=
  let payload := pcm16 samples in
  (wav_header nchannels framerate (Z.of_nat (List.length payload))
   ++ payload)%list.

(** The decode step of [speak]: sample rate and samples of a body. *)
Definition wav_decode (body : list byte) : exn + Z * list Z :=
  match Wave.open body with
  | inl e => inl e
  | inr w =>
      match frombuffer_int16 (Wave.readframes w (Wave.getnframes w)) with
      | Some a => inr (Wave.getframerate w, a)
      | None =>
          inl (ValueError "buffer size must be a multiple of element size")
      end
  end.

(** ** Well-formed 16-bit PCM bodies *)

(** A chunk as it lies in a RIFF file: the name, the size of the
    contents (little-endian), the contents, and a pad byte after
    contents of odd length. *)
Definition chunk_bytes (name contents : list byte) : list byte :=
  (name ++ le_bytes 4 (Z.of_nat (List.length contents)) ++ contents
   ++ (if Z.odd (Z.of_nat (List.length contents)) then [x00] else []))%list.

Definition chunks_bytes (cs : list (list byte * list byte)) : list byte :=
  flat_map (fun c => chunk_bytes (fst c) (snd c)) cs.

(** The sixteen bytes every [fmt ] chunk of 16-bit PCM begins with:
    format tag 1, channels, sample rate, byte rate, block align, 16 bits
    per sample. *)
Definition fmt_pcm16 (nchannels framerate : Z) : list byte :=
  (le_bytes 2 1 ++ le_bytes 2 nchannels ++ le_bytes 4 framerate
   ++ le_bytes 4 (framerate * nchannels * 2) ++ le_bytes 2 (nchannels * 2)
   ++ le_bytes 2 16)%list.

(** What a 16-bit PCM file may hold besides format and samples: chunks
    before the [fmt ] chunk, bytes that extend the [fmt ] chunk beyond
    sixteen (the two-byte [cbSize] of an 18-byte chunk), chunks between
    [fmt ] and [data] (a [LIST] chunk, say), and whatever follows the
    samples. *)
Record WavLayout : Type := mkWavLayout {
  before_fmt : list (list byte * list byte);
  fmt_extension : list byte;
  before_data : list (list byte * list byte);
  after_data : list byte
}.

(** The name of a chunk that is neither [fmt ] nor [data]. *)
Definition other_name (name : list byte) : bool :=
  (List.length name =? 4)%nat
  && negb (bytes_eqb name (b "fmt ")) && negb (bytes_eqb name (b "data")).

Definition well_formed (L : WavLayout) : bool :=
  forallb (fun c => other_name (fst c)) (before_fmt L)
  && forallb (fun c => other_name (fst c)) (before_data L).

(** What the RIFF chunk of a body holds. *)
Definition wav_form (L : WavLayout) (nchannels framerate : Z)
  (payload : list byte) : list byte :=
  (b "WAVE" ++ chunks_bytes (before_fmt L)
   ++ chunk_bytes (b "fmt ") (fmt_pcm16 nchannels framerate
                              ++ fmt_extension L)
   ++ chunks_bytes (before_data L)
   ++ b "data" ++ le_bytes 4 (Z.of_nat (List.length payload)) ++ payload
   ++ after_data L)%list.

(** Modelled from the spec: a well-formed 16-bit PCM WAV body for a
    sample array, in any layout.  The spec's encoder is not part of the
    repository; [wav_encode] above is the layout with nothing added. *)
Definition wav_body (L : WavLayout) (nchannels framerate : Z)
  (samples : list Z) : list byte :=
  let form := wav_form L nchannels framerate (pcm16 samples) in
  (b "RIFF" ++ le_bytes 4 (Z.of_nat (List.length form)) ++ form)%list.

Definition plain_layout : WavLayout := mkWavLayout [] [] [] [].

(** A layout that uses every freedom: a chunk of odd size before the
    format, an 18-byte [fmt ] chunk, a [LIST] chunk before the samples
    and bytes after them. *)
Definition busy_layout : WavLayout :=
  mkWavLayout [ (b "JUNK", b "abc") ] [x00; x00]
              [ (b "LIST", b "INFOxyz") ] (b "tail").

(** ** Observations on traces and a driver for repeated calls *)

Definition posts (t : list Event) : list Request :=
  flat_map (fun e => match e with HttpPost r => [r] | _ => [] end) t.

Definition plays (t : list Event) : list (list Z * Z) :=
  flat_map (fun e => match e with Play a r => [(a, r)] | _ => [] end) t.

(** One call of [m] per world, in order, each starting from the class
    attributes the previous one left; an exception ends its own call only
    (the form catches it).  Yields the outcomes, the final attributes and
    the whole trace. *)
Fixpoint run_each {A} (m : M A) (ws : list World) (s : TokenCls)
  : list (exn + A) * TokenCls * list Event :=
  match ws with
  | [] => ([], s, [])
  | w :: ws' =>
      let '(r, s1, t1) := m w s in
      let '(rs, s2, t2) := run_each m ws' s1 in
      (r :: rs, s2, (t1 ++ t2)%list)
  end.

Definition SALUTESPEECH_API_KEY : string := "SALUTESPEECH_API_KEY".

Definition oauth_url : string :=
  "https://ngw.devices.sberbank.ru:9443/api/v2/oauth".

(** The request [__request_for_new_token__] sends, given what
    [get_authdata] returned and the fresh [RqUID]. *)
Definition oauth_request (authdata : option string) (rquid : string)
  : Request :=
  mkRequest oauth_url
            [ ("Authorization", "Basic " ++ format_opt authdata);
              ("RqUID", rquid);
              ("Content-Type", "application/x-www-form-urlencoded") ]
            (Form [ ("scope", "SALUTE_SPEECH_PERS") ]) false.

(** ** Concrete scenarios *)

(** A peer that answers every request with the same status and no body. *)
Definition peer_status (status : Z) : Request -> HttpResult :=
  fun _ => Reply (mkResponse status [] None).

(** A peer that grants the token [tok] expiring at [exp] and answers a
    synthesis request with [wav]. *)
Definition peer_ok (tok : string) (exp : Z) (wav : list byte)
  : Request -> HttpResult :=
  fun _ => Reply (mkResponse 200 wav
                    (Some [ ("access_token", VStr tok);
                            ("expires_at", VInt exp) ])).

(** A peer that grants a token and then fails the synthesis with [status]. *)
Definition peer_synth_status (tok : string) (exp status : Z)
  : Request -> HttpResult :=
  fun req =>
    if String.eqb (url req) oauth_url then peer_ok tok exp [] req
    else peer_status status req.

Definition env_absent : string -> option string := fun _ => None.

Definition env_key (v : string) : string -> option string :=
  fun name => if String.eqb name SALUTESPEECH_API_KEY then Some v else None.

Definition cached (key tok : string) (exp : value) : TokenCls :=
  {| _authdata := Some key; _token := VStr tok; _expires_in := exp |}.

(** ** The pieces of a refresh, named for the statements below *)

(** The credential a refresh sends: the cached one, else whatever the
    environment holds. *)
Definition authdata_for (w : World) (s : TokenCls) : option string :=
  match _authdata s with
  | Some key => Some key
  | None => environ_get w SALUTESPEECH_API_KEY
  end.

(** The class attributes after [get_authdata]. *)
Definition with_authdata (w : World) (s : TokenCls) : TokenCls :=
  {| _authdata := authdata_for w s; _token := _token s;
     _expires_in := _expires_in s |}.

(** The effects of one refresh. *)
Definition refresh_trace (w : World) (s : TokenCls) : list Event :=
  (match _authdata s with
   | Some _ => []
   | None => [EnvGet SALUTESPEECH_API_KEY]
   end ++ [HttpPost (oauth_request (authdata_for w s) (uuid4 w))])%list.

(** How [__request_for_new_token__] reads the result of its POST. *)
Definition read_token_reply (res : HttpResult) : exn + value * value :=
  match res with
  | TransportFailure => inl RequestException
  | Reply r =>
      if (status_code r =? 200)%Z then
        match json r with
        | None => inl JSONDecodeError
        | Some d =>
            match Py.get d "access_token", Py.get d "expires_at" with
            | None, _ => inl (KeyError "access_token")
            | Some _, None => inl (KeyError "expires_at")
            | Some tok, Some e => inr (tok, e)
            end
        end
      else inl (Exception "Failed to obtain token")
  end.

(** The condition under which [get_token] asks for a new token: no token
    cached, or an integer expiry below [now - 2000]. *)
Definition refresh_due (w : World) (s : TokenCls) : bool :=
  is_None (_token s)
  || match _expires_in s with
     | VInt e => (e <? now_ms w - 2000)%Z
     | _ => false
     end.

(** A peer that answers every request with status 200 and the JSON
    object [d]. *)
Definition peer_json (d : dict value) : Request -> HttpResult :=
  fun _ => Reply (mkResponse 200 [] (Some d)).

(** ** class Interface *)

(** What the form adds to the effects of [speak]: the blocking notice
    [QMessageBox.critical(self, title, text)]. *)
Inductive UiEvent : Type :=
| Core (e : Event)
| QMessageBox_critical (title text : string).

(** The voices [initUI] puts into the combo box. *)
Definition combo_box_items : list string :=
  [ "Наталья"; "Александра"; "Борис"; "Марфа"; "Тарас"; "Сергей" ].

(** [str(e)].  The text of an exception raised inside [requests] or the
    JSON decoder is the library's and is given by [lib_text].  The keys
    of a [KeyError] here are the two plain field names, whose [repr] is
    the name in single quotes; [EOFError] and [RuntimeError] are raised
    without arguments. *)
Definition str_exn (lib_text : exn -> string) (e : exn) : string :=
  match e with
  | Exception msg => msg
  | ValueError msg => msg
  | wave_Error msg => msg
  | KeyError key => "'" ++ key ++ "'"
  | TypeError => "'<' not supported between instances of 'str' and 'int'"
  | EOFError => ""
  | RuntimeError => ""
  | PortAudioError msg => msg
  | JSONDecodeError => lib_text e
  | RequestException => lib_text e
  end.

(** [onSpeak], for the text and the voice the form holds: call [speak]
    and show any exception in a notice. *)
Definition onSpeak (lib_text : exn -> string) (text voice : string)
  (w : World) (s : TokenCls) : TokenCls * list UiEvent :=
  match speak text voice w s with
  | (inr _, s1, t) => (s1, map Core t)
  | (inl e, s1, t) =>
      (s1, (map Core t
            ++ [QMessageBox_critical "Ошибка"
                  ("Произошла ошибка: " ++ str_exn lib_text e)])%list)
  end.

Definition notices (t : list UiEvent) : list (string * string) :=
  flat_map (fun e => match e with
                     | QMessageBox_critical title text => [(title, text)]
                     | Core _ => []
                     end) t.

Definition core (t : list UiEvent) : list Event :=
  flat_map (fun e => match e with Core c => [c] | _ => [] end) t.

(** * Properties *)

Ltac unfold_M :=
  unfold bind, ret, raise, get_cls, set_authdata, set_token_expires,
    os_environ_get, time_ms, uuid_uuid4, requests_post, getitem,
    response_json, sd_play in *.

Ltac unfold_Token :=
  unfold Token.get_token, Token.__request_for_new_token__,
    Token.get_authdata, Token.expired in *.

(** ** get_authdata *)

Section Authdata.
Variables (w : World) (s : TokenCls).

(** With a credential in [_authdata] the environment is not consulted. *)
Lemma get_authdata_cached (key : string) :
  _authdata s = Some key ->
  Token.get_authdata w s = (inr (Some key), s, []).
Proof.
  intros Hk. unfold_Token. unfold_M. rewrite Hk. simpl.
  rewrite Hk. reflexivity.
Qed.

(** Without one the environment is read and the result stored, be it a
    value or [None]. *)
Lemma get_authdata_reads :
  _authdata s = None ->
  Token.get_authdata w s =
    (inr (environ_get w SALUTESPEECH_API_KEY),
     {| _authdata := environ_get w SALUTESPEECH_API_KEY;
        _token := _token s; _expires_in := _expires_in s |},
     [EnvGet SALUTESPEECH_API_KEY]).
Proof.
  intros Hk. unfold_Token. unfold_M. rewrite Hk. reflexivity.
Qed.

(** [get_authdata] never touches the token or its expiry, never raises,
    and returns what it leaves in [_authdata]. *)
Lemma get_authdata_frame :
  exists a t,
    Token.get_authdata w s =
      (inr a, {| _authdata := a; _token := _token s;
                 _expires_in := _expires_in s |}, t)
    /\ posts t = [] /\ plays t = [].
Proof.
  destruct (_authdata s) as [key|] eqn:Hk.
  - exists (Some key), []. rewrite (get_authdata_cached key Hk).
    destruct s; simpl in *; subst; auto.
  - eexists _, _. rewrite (get_authdata_reads Hk). auto.
Qed.
End Authdata.

Lemma run_each_get_authdata_cached (key : string) (ws : list World) :
  forall s, _authdata s = Some key ->
    run_each Token.get_authdata ws s =
      (repeat (inr (Some key)) (List.length ws), s, []).
Proof.
  induction ws as [|w ws IH]; intros s Hk; simpl.
  - reflexivity.
  - rewrite (get_authdata_cached w s key Hk), (IH s Hk). reflexivity.
Qed.

Lemma run_each_app {A} (m : M A) (ws1 ws2 : list World) :
  forall s,
    run_each m (ws1 ++ ws2) s =
      let '(r1, s1, t1) := run_each m ws1 s in
      let '(r2, s2, t2) := run_each m ws2 s1 in
      ((r1 ++ r2)%list, s2, (t1 ++ t2)%list).
Proof.
  induction ws1 as [|w ws1 IH]; intros s; cbn [app run_each].
  - destruct (run_each m ws2 s) as [[r2 s2] t2]. reflexivity.
  - destruct (m w s) as [[r s1] t1]. rewrite IH.
    destruct (run_each m ws1 s1) as [[r1 s1'] t1'].
    destruct (run_each m ws2 s1') as [[r2 s2] t2].
    rewrite app_assoc. reflexivity.
Qed.

(** While the variable is absent every call reads the environment and
    leaves [_authdata] at [None]. *)
Lemma run_each_get_authdata_absent (ws : list World) :
  forall s,
    _authdata s = None ->
    Forall (fun a => environ_get a SALUTESPEECH_API_KEY = None) ws ->
    run_each Token.get_authdata ws s =
      (repeat (inr None) (List.length ws),
       {| _authdata := None; _token := _token s;
          _expires_in := _expires_in s |},
       repeat (EnvGet SALUTESPEECH_API_KEY) (List.length ws)).
Proof.
  induction ws as [|w ws IH]; intros s Hnone Habs; cbn [run_each].
  - destruct s; simpl in Hnone; subst. reflexivity.
  - inversion Habs as [|w' ws' Hw Hws]; subst.
    rewrite (get_authdata_reads w s Hnone), Hw.
    rewrite IH by (first [reflexivity | assumption]). reflexivity.
Qed.

(** C9 (as amended): the environment variable is read lazily, at the
    calls that find no cached value.  While the variable is absent
    nothing is cached and every call consults the environment again.
    The call that finds it set caches the value: that call reads the
    environment once more, and it and every later call return the value
    found, whatever the environment holds by then. *)
Theorem C9_authdata_cached_once_found :
  forall (absent : list World) (w : World) (ws : list World)
         (s : TokenCls) (key : string),
    _authdata s = None ->
    Forall (fun a => environ_get a SALUTESPEECH_API_KEY = None) absent ->
    environ_get w SALUTESPEECH_API_KEY = Some key ->
    run_each Token.get_authdata absent s =
      (repeat (inr None) (List.length absent),
       {| _authdata := None; _token := _token s;
          _expires_in := _expires_in s |},
       repeat (EnvGet SALUTESPEECH_API_KEY) (List.length absent))
    /\ run_each Token.get_authdata (absent ++ w :: ws) s =
         ((repeat (inr None) (List.length absent)
           ++ repeat (inr (Some key)) (S (List.length ws)))%list,
          {| _authdata := Some key; _token := _token s;
             _expires_in := _expires_in s |},
          repeat (EnvGet SALUTESPEECH_API_KEY) (S (List.length absent))).
Proof.
  intros absent w ws s key Hnone Habs Henv.
  pose proof (run_each_get_authdata_absent absent s Hnone Habs) as Hrun.
  split; [exact Hrun|].
  rewrite run_each_app, Hrun. cbn [run_each].
  rewrite get_authdata_reads by reflexivity. rewrite Henv.
  cbn [_token _expires_in].
  rewrite (run_each_get_authdata_cached key ws) by reflexivity.
  rewrite app_nil_r.
  replace (repeat (EnvGet SALUTESPEECH_API_KEY) (List.length absent)
           ++ [EnvGet SALUTESPEECH_API_KEY])%list
    with (repeat (EnvGet SALUTESPEECH_API_KEY) (S (List.length absent))).
  - reflexivity.
  - rewrite <- repeat_cons. reflexivity.
Qed.

Lemma C9_authdata_cached_once_found_witness :
  let gone k := mkWorld env_absent k "u" (peer_status 500) in
  let run := run_each Token.get_authdata in
  run [gone 0; gone 1] Token_initial =
    ([inr None; inr None], Token_initial,
     [EnvGet SALUTESPEECH_API_KEY; EnvGet SALUTESPEECH_API_KEY])
  /\ run [gone 0; gone 1;
          mkWorld (env_key "a2V5") 2 "u" (peer_status 500);
          gone 3;
          mkWorld (env_key "b3RoZXI=") 4 "w" (peer_status 500)]
         Token_initial =
     ([inr None; inr None;
       inr (Some "a2V5"); inr (Some "a2V5"); inr (Some "a2V5")],
      {| _authdata := Some "a2V5"; _token := VNone; _expires_in := VNone |},
      [EnvGet SALUTESPEECH_API_KEY; EnvGet SALUTESPEECH_API_KEY;
       EnvGet SALUTESPEECH_API_KEY]).
Proof.
  apply (C9_authdata_cached_once_found
           [mkWorld env_absent 0 "u" (peer_status 500);
            mkWorld env_absent 1 "u" (peer_status 500)]
           (mkWorld (env_key "a2V5") 2 "u" (peer_status 500))
           [mkWorld env_absent 3 "u" (peer_status 500);
            mkWorld (env_key "b3RoZXI=") 4 "w" (peer_status 500)]
           Token_initial "a2V5").
  - reflexivity.
  - repeat constructor.
  - reflexivity.
Defined.

(** C9 fails as stated: while the variable is absent nothing is cached,
    and each of three calls consults the environment again, so that the
    third one picks up a value set in the meantime. *)
Lemma C9_counterexample :
  run_each Token.get_authdata
    [mkWorld env_absent 0 "u" (peer_status 500);
     mkWorld env_absent 1 "v" (peer_status 500);
     mkWorld (env_key "a2V5") 2 "w" (peer_status 500)]
    Token_initial =
  ([inr None; inr None; inr (Some "a2V5")],
   {| _authdata := Some "a2V5"; _token := VNone; _expires_in := VNone |},
   [EnvGet SALUTESPEECH_API_KEY; EnvGet SALUTESPEECH_API_KEY;
    EnvGet SALUTESPEECH_API_KEY]).
Proof. reflexivity. Qed.

(** ** __request_for_new_token__ *)

Section Refresh.
Variables (w : World) (s : TokenCls).

Lemma request_for_new_token_run :
  Token.__request_for_new_token__ w s =
    (read_token_reply (post w (oauth_request (authdata_for w s) (uuid4 w))),
     with_authdata w s, refresh_trace w s).
Proof.
  unfold Token.__request_for_new_token__, bind at 1.
  unfold with_authdata, refresh_trace, authdata_for.
  destruct (_authdata s) as [key|] eqn:Hk.
  - rewrite (get_authdata_cached w s key Hk).
    unfold_M. fold oauth_url. fold (oauth_request (Some key) (uuid4 w)).
    unfold read_token_reply.
    destruct (post w _) as [r|]; simpl;
      [ destruct (status_code r =? 200)%Z; simpl;
        [ destruct (json r) as [d|]; simpl;
          [ destruct (Py.get d "access_token"); simpl;
            [ destruct (Py.get d "expires_at"); simpl | ] | ] | ] | ];
      destruct s; simpl in *; subst; reflexivity.
  - rewrite (get_authdata_reads w s Hk).
    unfold_M. fold oauth_url. unfold SALUTESPEECH_API_KEY.
    fold (oauth_request (environ_get w "SALUTESPEECH_API_KEY") (uuid4 w)).
    unfold read_token_reply.
    destruct (post w _) as [r|]; simpl;
      [ destruct (status_code r =? 200)%Z; simpl;
        [ destruct (json r) as [d|]; simpl;
          [ destruct (Py.get d "access_token"); simpl;
            [ destruct (Py.get d "expires_at"); simpl | ] | ] | ] | ];
      reflexivity.
Qed.

Lemma refresh_trace_posts :
  posts (refresh_trace w s) =
    [oauth_request (authdata_for w s) (uuid4 w)].
Proof. unfold refresh_trace. destruct (_authdata s); reflexivity. Qed.

Lemma refresh_trace_plays : plays (refresh_trace w s) = [].
Proof. unfold refresh_trace. destruct (_authdata s); reflexivity. Qed.

(** ** get_token *)

(** No refresh is due: the cached token is returned as it is, with no
    effect at all. *)
Lemma get_token_served :
  refresh_due w s = false ->
  (forall x, _expires_in s <> VStr x) ->
  Token.get_token w s = (inr (_token s), s, []).
Proof.
  unfold refresh_due. intros Hdue Hty.
  apply orb_false_iff in Hdue as [Hnone Hexp].
  unfold Token.get_token, Token.expired. unfold_M. rewrite Hnone.
  destruct (_expires_in s) as [|x|e]; simpl.
  - reflexivity.
  - destruct (Hty x); reflexivity.
  - rewrite Hexp. reflexivity.
Qed.

(** A refresh is due: one run of [__request_for_new_token__]; its
    result replaces token and expiry together, its exception leaves
    both as they were. *)
Lemma get_token_refreshes :
  refresh_due w s = true ->
  Token.get_token w s =
    match read_token_reply
            (post w (oauth_request (authdata_for w s) (uuid4 w))) with
    | inl e => (inl e, with_authdata w s, refresh_trace w s)
    | inr (tok, exp) =>
        (inr tok,
         {| _authdata := authdata_for w s; _token := tok;
            _expires_in := exp |},
         refresh_trace w s)
    end.
Proof.
  unfold refresh_due. intros Hdue.
  unfold Token.get_token, Token.expired. unfold_M.
  destruct (is_None (_token s)) eqn:Hn; simpl in Hdue.
  - rewrite request_for_new_token_run.
    destruct (read_token_reply _) as [e|[tok exp]]; simpl.
    + reflexivity.
    + rewrite !app_nil_r. reflexivity.
  - destruct (_expires_in s) as [|x|e]; try discriminate.
    rewrite Hdue. rewrite request_for_new_token_run.
    destruct (read_token_reply _) as [e'|[tok exp]]; simpl.
    + reflexivity.
    + rewrite !app_nil_r. reflexivity.
Qed.
End Refresh.

(** C7: a cached token whose expiry lies more than 2000 ms ahead of the
    call time is returned as it is, and no request (no effect at all) is
    issued; the class attributes stay as they were. *)
Theorem C7_fresh_token_served_from_cache :
  forall (w : World) (s : TokenCls) (tok : string) (e : Z),
    _token s = VStr tok ->
    _expires_in s = VInt e ->
    e > now_ms w + 2000 ->
    Token.get_token w s = (inr (VStr tok), s, [])
    /\ posts (trace (Token.get_token w s)) = [].
Proof.
  intros w s tok e Htok Hexp Hfresh.
  assert (Hrun : Token.get_token w s = (inr (_token s), s, [])).
  { apply get_token_served.
    - unfold refresh_due. rewrite Htok, Hexp. simpl.
      apply Z.ltb_ge. lia.
    - intros x. rewrite Hexp. discriminate. }
  rewrite Hrun, Htok. split; reflexivity.
Qed.

Lemma C7_fresh_token_served_from_cache_witness :
  Token.get_token (mkWorld env_absent 10000 "u" (peer_ok "new" 99999 []))
                  (cached "a2V5" "old" (VInt 12001))
  = (inr (VStr "old"), cached "a2V5" "old" (VInt 12001), [])
  /\ posts (trace (Token.get_token
                     (mkWorld env_absent 10000 "u" (peer_ok "new" 99999 []))
                     (cached "a2V5" "old" (VInt 12001)))) = [].
Proof.
  apply (C7_fresh_token_served_from_cache
           (mkWorld env_absent 10000 "u" (peer_ok "new" 99999 []))
           (cached "a2V5" "old" (VInt 12001)) "old" 12001).
  - reflexivity.
  - reflexivity.
  - simpl. lia.
Defined.

(** What the code does with an expiry near the call time: from 2000 ms
    before the call onwards the cached token still counts as fresh. *)
Lemma get_token_margin_is_behind_now :
  forall (w : World) (s : TokenCls) (tok : string) (e : Z),
    _token s = VStr tok ->
    _expires_in s = VInt e ->
    now_ms w - 2000 <= e ->
    Token.get_token w s = (inr (VStr tok), s, []).
Proof.
  intros w s tok e Htok Hexp Hnear.
  rewrite get_token_served.
  - rewrite Htok. reflexivity.
  - unfold refresh_due. rewrite Htok, Hexp. simpl. apply Z.ltb_ge. lia.
  - intros x. rewrite Hexp. discriminate.
Qed.

(** The part of the staleness rule the code does implement: an expiry
    more than 2000 ms behind the call time triggers exactly one refresh,
    and a granted token replaces the cached one and is returned. *)
Lemma get_token_replaces_long_expired :
  forall (w : World) (s : TokenCls) (tok : string) (e : Z) (r : Response)
         (tok' exp' : value),
    _token s = VStr tok ->
    _expires_in s = VInt e ->
    e < now_ms w - 2000 ->
    post w (oauth_request (authdata_for w s) (uuid4 w)) = Reply r ->
    status_code r = 200 ->
    json r = Some [("access_token", tok'); ("expires_at", exp')] ->
    outcome (Token.get_token w s) = inr tok'
    /\ _token (final (Token.get_token w s)) = tok'
    /\ _expires_in (final (Token.get_token w s)) = exp'
    /\ posts (trace (Token.get_token w s)) =
         [oauth_request (authdata_for w s) (uuid4 w)].
Proof.
  intros w s tok e r tok' exp' Htok Hexp Hold Hpost Hst Hjson.
  rewrite get_token_refreshes.
  - rewrite Hpost. unfold read_token_reply. rewrite Hst, Hjson. simpl.
    unfold outcome, final, trace. simpl.
    repeat split. apply refresh_trace_posts.
  - unfold refresh_due. rewrite Htok, Hexp. simpl. apply Z.ltb_lt. lia.
Qed.

(** C1 fails on the code: a token that expired 1000 ms before the call
    (and one that expires 1000 ms after it) is returned from the cache,
    and no refresh is requested although the peer would grant one. *)
Theorem C1_stale_token_served_without_refresh :
  Token.get_token (mkWorld (env_key "a2V5") 11000 "u" (peer_ok "new" 99999 []))
                  (cached "a2V5" "old" (VInt 10000))
  = (inr (VStr "old"), cached "a2V5" "old" (VInt 10000), [])
  /\
  Token.get_token (mkWorld (env_key "a2V5") 11000 "u" (peer_ok "new" 99999 []))
                  (cached "a2V5" "old" (VInt 12000))
  = (inr (VStr "old"), cached "a2V5" "old" (VInt 12000), []).
Proof. split; reflexivity. Qed.

(** C10: with a token cached and no expiry recorded, every call returns
    the cached token whatever the clock says, and none of them refreshes
    or has any other effect. *)
Theorem C10_no_expiry_never_refreshes :
  forall (ws : list World) (s : TokenCls) (tok : string),
    _token s = VStr tok ->
    _expires_in s = VNone ->
    run_each Token.get_token ws s =
      (repeat (inr (VStr tok)) (List.length ws), s, []).
Proof.
  induction ws as [|w ws IH]; intros s tok Htok Hexp; simpl.
  - reflexivity.
  - rewrite get_token_served.
    + rewrite (IH s tok Htok Hexp), Htok. reflexivity.
    + unfold refresh_due. rewrite Htok, Hexp. reflexivity.
    + intros x. rewrite Hexp. discriminate.
Qed.

Lemma C10_no_expiry_never_refreshes_witness :
  run_each Token.get_token
    [mkWorld env_absent 0 "u" (peer_ok "new" 99999 []);
     mkWorld env_absent 4102444800000 "v" (peer_ok "new" 99999 [])]
    (cached "a2V5" "old" VNone)
  = ([inr (VStr "old"); inr (VStr "old")], cached "a2V5" "old" VNone, []).
Proof.
  apply (C10_no_expiry_never_refreshes
           [mkWorld env_absent 0 "u" (peer_ok "new" 99999 []);
            mkWorld env_absent 4102444800000 "v" (peer_ok "new" 99999 [])]
           (cached "a2V5" "old" VNone) "old"); reflexivity.
Defined.

(** C2 (as amended): with the variable absent a refresh raises nothing of
    its own; it reads the environment, sends the request with the header
    [Authorization: Basic None], and ends as the reply to that request
    dictates. *)
Theorem C2_absent_key_is_sent_as_None :
  forall (w : World) (s : TokenCls),
    _authdata s = None ->
    environ_get w SALUTESPEECH_API_KEY = None ->
    Token.__request_for_new_token__ w s =
      (read_token_reply (post w (oauth_request None (uuid4 w))),
       {| _authdata := None; _token := _token s;
          _expires_in := _expires_in s |},
       [EnvGet SALUTESPEECH_API_KEY;
        HttpPost (oauth_request None (uuid4 w))])
    /\ Py.get (headers (oauth_request None (uuid4 w))) "Authorization"
       = Some "Basic None".
Proof.
  intros w s Hnone Henv. split; [|reflexivity].
  rewrite request_for_new_token_run.
  unfold with_authdata, refresh_trace, authdata_for.
  rewrite Hnone, Henv. reflexivity.
Qed.

Lemma C2_absent_key_is_sent_as_None_witness :
  Token.__request_for_new_token__
    (mkWorld env_absent 0 "u" (peer_status 401)) Token_initial =
    (read_token_reply (peer_status 401 (oauth_request None "u")),
     {| _authdata := None; _token := VNone; _expires_in := VNone |},
     [EnvGet SALUTESPEECH_API_KEY; HttpPost (oauth_request None "u")])
  /\ Py.get (headers (oauth_request None "u")) "Authorization"
     = Some "Basic None".
Proof.
  apply (C2_absent_key_is_sent_as_None
           (mkWorld env_absent 0 "u" (peer_status 401)) Token_initial);
    reflexivity.
Defined.

(** C2 fails as stated: with the variable absent the refresh does not
    fail; the request goes out with the placeholder credential, and the
    token the peer grants is cached and returned. *)
Lemma C2_counterexample :
  Token.get_token (mkWorld env_absent 0 "u" (peer_ok "T" 5000 []))
                  Token_initial
  = (inr (VStr "T"),
     {| _authdata := None; _token := VStr "T"; _expires_in := VInt 5000 |},
     [EnvGet SALUTESPEECH_API_KEY; HttpPost (oauth_request None "u")])
  /\ Py.get (headers (oauth_request None "u")) "Authorization"
     = Some "Basic None".
Proof. split; reflexivity. Qed.

(** C5 (as amended): when a refresh is due and the token endpoint
    answers with a status other than 200, [get_token] raises
    [Exception("Failed to obtain token")], a fixed message without the
    status, after exactly one request, and the cached token and expiry
    are what they were. *)
Theorem C5_failed_refresh_keeps_cache :
  forall (w : World) (s : TokenCls) (r : Response),
    refresh_due w s = true ->
    post w (oauth_request (authdata_for w s) (uuid4 w)) = Reply r ->
    status_code r <> 200 ->
    outcome (Token.get_token w s) = inl (Exception "Failed to obtain token")
    /\ _token (final (Token.get_token w s)) = _token s
    /\ _expires_in (final (Token.get_token w s)) = _expires_in s
    /\ posts (trace (Token.get_token w s)) =
         [oauth_request (authdata_for w s) (uuid4 w)].
Proof.
  intros w s r Hdue Hpost Hst.
  rewrite (get_token_refreshes w s Hdue), Hpost.
  unfold read_token_reply.
  apply Z.eqb_neq in Hst. rewrite Hst.
  unfold outcome, final, trace. simpl.
  repeat split. apply refresh_trace_posts.
Qed.

Lemma C5_failed_refresh_keeps_cache_witness :
  let w := mkWorld (env_key "a2V5") 20000 "u" (peer_status 401) in
  let s := cached "a2V5" "old" (VInt 10000) in
  outcome (Token.get_token w s) = inl (Exception "Failed to obtain token")
  /\ _token (final (Token.get_token w s)) = VStr "old"
  /\ _expires_in (final (Token.get_token w s)) = VInt 10000
  /\ posts (trace (Token.get_token w s)) = [oauth_request (Some "a2V5") "u"].
Proof.
  apply (C5_failed_refresh_keeps_cache
           (mkWorld (env_key "a2V5") 20000 "u" (peer_status 401))
           (cached "a2V5" "old" (VInt 10000))
           (mkResponse 401 [] None)).
  - reflexivity.
  - reflexivity.
  - simpl. lia.
Defined.

(** C5 fails as stated: the exception raised for status 401 is the one
    raised for status 500, so nothing computed from the exception gives
    the status back. *)
Lemma C5_counterexample :
  let failure status :=
    outcome (Token.get_token
               (mkWorld (env_key "a2V5") 0 "u" (peer_status status))
               Token_initial) in
  failure 401 = inl (Exception "Failed to obtain token")
  /\ failure 500 = failure 401
  /\ ~ (exists status_of : exn -> Z,
          forall status, status <> 200 ->
            exists e, failure status = inl e /\ status_of e = status).
Proof.
  cbv zeta. split; [reflexivity|]. split; [reflexivity|].
  intros [status_of H].
  destruct (H 401 ltac:(lia)) as [e1 [H1 S1]].
  destruct (H 500 ltac:(lia)) as [e2 [H2 S2]].
  vm_compute in H1, H2.
  injection H1 as <-. injection H2 as <-. lia.
Qed.

(** ** speak *)

Lemma contains_In (ks : list string) (k : string) :
  contains ks k = true <-> In k ks.
Proof.
  induction ks as [|k' ks IH]; simpl.
  - split; [discriminate | contradiction].
  - rewrite orb_true_iff, String.eqb_eq, IH. reflexivity.
Qed.

Lemma get_contains {V} (d : dict V) (k : string) (v : V) :
  Py.get d k = Some v -> contains (keys d) k = true.
Proof.
  induction d as [|[k' v'] d IH]; simpl; [discriminate|].
  destruct (String.eqb k' k); simpl; auto.
Qed.

Lemma posts_app (t1 t2 : list Event) :
  posts (t1 ++ t2) = (posts t1 ++ posts t2)%list.
Proof. apply flat_map_app. Qed.

Lemma plays_app (t1 t2 : list Event) :
  plays (t1 ++ t2) = (plays t1 ++ plays t2)%list.
Proof. apply flat_map_app. Qed.

Section GetTokenTrace.
Variables (w : World) (s : TokenCls).

Lemma get_token_TypeError (x : string) :
  is_None (_token s) = false ->
  _expires_in s = VStr x ->
  Token.get_token w s = (inl TypeError, s, []).
Proof.
  intros Hn Hx. unfold Token.get_token, Token.expired. unfold_M.
  rewrite Hn, Hx. reflexivity.
Qed.

(** [get_token] plays nothing. *)
Lemma get_token_plays : plays (trace (Token.get_token w s)) = [].
Proof.
  destruct (refresh_due w s) eqn:Hdue.
  - rewrite (get_token_refreshes w s Hdue).
    destruct (read_token_reply _) as [e|[tok exp]];
      apply refresh_trace_plays.
  - destruct (_expires_in s) as [|x|e] eqn:Hexp.
    + rewrite get_token_served; auto. rewrite Hexp. discriminate.
    + apply orb_false_iff in Hdue as [Hn _].
      rewrite (get_token_TypeError x Hn Hexp). reflexivity.
    + rewrite get_token_served; auto. rewrite Hexp. discriminate.
Qed.
End GetTokenTrace.

(** [speak] for a recognised voice, step by step: the token, the request,
    and on status 200 the decoding and the playback. *)
Lemma speak_run (text voice code : string) (w : World) (s : TokenCls) :
  Py.get valid_voices voice = Some code ->
  speak text voice w s =
    match Token.get_token w s with
    | (inl e, s1, t1) => (inl e, s1, t1)
    | (inr token, s1, t1) =>
        let req := synthesize_request code token text in
        match post w req with
        | TransportFailure =>
            (inl RequestException, s1, (t1 ++ [HttpPost req])%list)
        | Reply r =>
            if (status_code r =? 200)%Z then
              match wav_decode (content r) with
              | inl e => (inl e, s1, (t1 ++ [HttpPost req])%list)
              | inr (rate, audio) =>
                  (play_result w audio rate, s1,
                   (t1 ++ [HttpPost req; Play audio rate])%list)
              end
            else
              (inl (Exception "Failed to synthesize speech"), s1,
               (t1 ++ [HttpPost req])%list)
        end
    end.
Proof.
  intros Hcode. unfold speak.
  rewrite (get_contains _ _ _ Hcode). cbn [negb].
  unfold bind at 1.
  destruct (Token.get_token w s) as [[[e|token] s1] t1]; [reflexivity|].
  unfold getitem. rewrite Hcode. unfold bind at 1, ret at 1.
  unfold bind at 1, requests_post at 1.
  cbv zeta.
  destruct (post w (synthesize_request code token text)) as [r|];
    [|reflexivity].
  destruct (status_code r =? 200)%Z; [|unfold raise; reflexivity].
  unfold wave_open, wav_decode, np_frombuffer_int16.
  destruct (Wave.open (content r)) as [e|wf]; [reflexivity|].
  unfold bind at 1, ret at 1.
  destruct (frombuffer_int16 _) as [audio|]; [|reflexivity].
  unfold sd_play, bind, ret. cbv beta zeta.
  destruct (play_result w audio _); reflexivity.
Qed.

(** C3: a voice outside the six names makes [speak] raise the error for
    an invalid voice ([ValueError]) whose message quotes the value given
    and lists the six valid names; nothing is sent (no token request, no
    synthesis request, no effect at all) and the token cache is
    untouched. *)
Theorem C3_invalid_voice_rejected_offline :
  forall (text voice : string) (w : World) (s : TokenCls),
    ~ In voice ["Наталья"; "Александра"; "Борис"; "Марфа"; "Тарас"; "Сергей"] ->
    speak text voice w s =
      (inl (ValueError
              ("Недопустимое значение для параметра 'voice': " ++ voice
               ++ ". Допустимые значения: "
               ++ "Наталья, Александра, Борис, Марфа, Тарас, Сергей")),
       s, [])
    /\ posts (trace (speak text voice w s)) = [].
Proof.
  intros text voice w s Hout.
  assert (Hc : contains (keys valid_voices) voice = false).
  { destruct (contains (keys valid_voices) voice) eqn:Hc; [|reflexivity].
    apply contains_In in Hc. contradiction. }
  assert (Hrun : speak text voice w s =
                 (inl (ValueError (invalid_voice_message voice)), s, [])).
  { unfold speak. rewrite Hc. reflexivity. }
  rewrite Hrun. split; reflexivity.
Qed.

Lemma C3_invalid_voice_rejected_offline_witness :
  speak "Привет" "Боря"
        (mkWorld env_absent 0 "u" (peer_ok "T" 5000 [])) Token_initial =
    (inl (ValueError
            ("Недопустимое значение для параметра 'voice': " ++ "Боря"
             ++ ". Допустимые значения: "
             ++ "Наталья, Александра, Борис, Марфа, Тарас, Сергей")),
     Token_initial, [])
  /\ posts (trace (speak "Привет" "Боря"
                     (mkWorld env_absent 0 "u" (peer_ok "T" 5000 []))
                     Token_initial)) = [].
Proof.
  apply (C3_invalid_voice_rejected_offline "Привет" "Боря"
           (mkWorld env_absent 0 "u" (peer_ok "T" 5000 [])) Token_initial).
  simpl. intros H.
  repeat (destruct H as [H|H]; [discriminate H|]). exact H.
Defined.

(** C4: each of the six names is looked up to its documented code, and
    the one synthesis request [speak] sends after obtaining a token has
    the target [...?voice=<code>_24000], the code unchanged. *)
Theorem C4_voice_code_in_query :
  forall (name code text : string) (w : World) (s : TokenCls) (tok : value),
    In (name, code)
       [ ("Наталья", "Nec"); ("Александра", "Ost"); ("Борис", "Bys");
         ("Марфа", "May"); ("Тарас", "Tur"); ("Сергей", "Pon") ] ->
    outcome (Token.get_token w s) = inr tok ->
    Py.get valid_voices name = Some code
    /\ posts (trace (speak text name w s)) =
         (posts (trace (Token.get_token w s))
          ++ [synthesize_request code tok text])%list
    /\ url (synthesize_request code tok text) =
         "https://smartspeech.sber.ru/rest/v1/text:synthesize?"
         ++ "voice=" ++ code ++ "_24000".
Proof.
  intros name code text w s tok Hin Htok.
  assert (Hcode : Py.get valid_voices name = Some code).
  { simpl in Hin.
    repeat (destruct Hin as [Hin|Hin];
            [injection Hin as <- <-; reflexivity|]).
    contradiction. }
  split; [exact Hcode|]. split; [|reflexivity].
  rewrite (speak_run text name code w s Hcode).
  unfold outcome in Htok.
  destruct (Token.get_token w s) as [[[e|token] s1] t1]; simpl in Htok;
    [discriminate|]. injection Htok as ->.
  cbv zeta. unfold trace.
  destruct (post w _) as [r|]; simpl.
  - destruct (status_code r =? 200)%Z; simpl.
    + destruct (wav_decode (content r)) as [e|[rate audio]]; simpl;
        rewrite posts_app; reflexivity.
    + rewrite posts_app. reflexivity.
  - rewrite posts_app. reflexivity.
Qed.

Lemma C4_voice_code_in_query_witness :
  let w := mkWorld (env_key "a2V5") 0 "u" (peer_ok "T" 99999 []) in
  Py.get valid_voices "Борис" = Some "Bys"
  /\ posts (trace (speak "Привет" "Борис" w Token_initial)) =
       (posts (trace (Token.get_token w Token_initial))
        ++ [synthesize_request "Bys" (VStr "T") "Привет"])%list
  /\ url (synthesize_request "Bys" (VStr "T") "Привет") =
       "https://smartspeech.sber.ru/rest/v1/text:synthesize?"
       ++ "voice=" ++ "Bys" ++ "_24000".
Proof.
  apply (C4_voice_code_in_query "Борис" "Bys" "Привет"
           (mkWorld (env_key "a2V5") 0 "u" (peer_ok "T" 99999 []))
           Token_initial (VStr "T")).
  - simpl. right. right. left. reflexivity.
  - reflexivity.
Defined.

(** C6 (as amended): when the synthesis endpoint answers with a status
    other than 200, [speak] raises [Exception("Failed to synthesize
    speech")], a fixed message without the status, and plays nothing. *)
Theorem C6_failed_synthesis_plays_nothing :
  forall (text voice code : string) (w : World) (s : TokenCls)
         (tok : value) (r : Response),
    Py.get valid_voices voice = Some code ->
    outcome (Token.get_token w s) = inr tok ->
    post w (synthesize_request code tok text) = Reply r ->
    status_code r <> 200 ->
    outcome (speak text voice w s) =
      inl (Exception "Failed to synthesize speech")
    /\ plays (trace (speak text voice w s)) = [].
Proof.
  intros text voice code w s tok r Hcode Htok Hpost Hst.
  rewrite (speak_run text voice code w s Hcode).
  pose proof (get_token_plays w s) as Hpl.
  unfold outcome in Htok. unfold trace in Hpl.
  destruct (Token.get_token w s) as [[[e|token] s1] t1]; simpl in Htok, Hpl;
    [discriminate|]. injection Htok as ->.
  cbv zeta. rewrite Hpost.
  apply Z.eqb_neq in Hst. rewrite Hst.
  unfold outcome, trace. simpl. split; [reflexivity|].
  rewrite plays_app, Hpl. reflexivity.
Qed.

Lemma C6_failed_synthesis_plays_nothing_witness :
  let w := mkWorld (env_key "a2V5") 0 "u" (peer_synth_status "T" 99999 500) in
  outcome (speak "Привет" "Борис" w Token_initial) =
    inl (Exception "Failed to synthesize speech")
  /\ plays (trace (speak "Привет" "Борис" w Token_initial)) = [].
Proof.
  apply (C6_failed_synthesis_plays_nothing "Привет" "Борис" "Bys"
           (mkWorld (env_key "a2V5") 0 "u" (peer_synth_status "T" 99999 500))
           Token_initial (VStr "T") (mkResponse 500 [] None)).
  - reflexivity.
  - reflexivity.
  - reflexivity.
  - simpl. lia.
Defined.

(** C6 fails as stated: the exception raised for status 500 is the one
    raised for status 404, so nothing computed from the exception gives
    the status back. *)
Lemma C6_counterexample :
  let failure status :=
    outcome (speak "Привет" "Борис"
               (mkWorld (env_key "a2V5") 0 "u"
                        (peer_synth_status "T" 99999 status))
               Token_initial) in
  failure 500 = inl (Exception "Failed to synthesize speech")
  /\ failure 404 = failure 500
  /\ ~ (exists status_of : exn -> Z,
          forall status, status <> 200 ->
            exists e, failure status = inl e /\ status_of e = status).
Proof.
  cbv zeta. split; [reflexivity|]. split; [reflexivity|].
  intros [status_of H].
  destruct (H 500 ltac:(lia)) as [e1 [H1 S1]].
  destruct (H 404 ltac:(lia)) as [e2 [H2 S2]].
  vm_compute in H1, H2.
  injection H1 as <-. injection H2 as <-. lia.
Qed.

(** ** Bytes and little-endian integers *)

Lemma Z_of_byte_of_Z (z : Z) : Z_of_byte (byte_of_Z z) = z mod 256.
Proof.
  unfold Z_of_byte, byte_of_Z.
  assert (Hr : 0 <= z mod 256 < 256) by (apply Z.mod_pos_bound; lia).
  destruct (Byte.of_N (Z.to_N (z mod 256))) as [x|] eqn:Hx.
  - apply Byte.to_of_N in Hx. rewrite Hx. lia.
  - apply Byte.of_N_None_iff in Hx. lia.
Qed.

Lemma length_le_bytes (n : nat) : forall z, List.length (le_bytes n z) = n.
Proof. induction n as [|n IH]; intros z; simpl; auto. Qed.

Lemma le_uint_le_bytes (n : nat) :
  forall z, le_uint (le_bytes n z) = z mod 256 ^ Z.of_nat n.
Proof.
  induction n as [|n IH]; intros z.
  - simpl. rewrite Z.mod_1_r. reflexivity.
  - cbn [le_bytes le_uint]. rewrite Z_of_byte_of_Z, IH.
    rewrite Nat2Z.inj_succ, Z.pow_succ_r by lia.
    rewrite Z.rem_mul_r by lia. reflexivity.
Qed.

Lemma le_uint_le_bytes_small (n : nat) (z : Z) :
  0 <= z < 256 ^ Z.of_nat n -> le_uint (le_bytes n z) = z.
Proof. intros Hz. rewrite le_uint_le_bytes. apply Z.mod_small, Hz. Qed.

Lemma signed16_le_bytes (x : Z) :
  -32768 <= x < 32768 -> signed16 (le_uint (le_bytes 2 x)) = x.
Proof.
  intros Hx. rewrite le_uint_le_bytes.
  change (256 ^ Z.of_nat 2) with 65536. unfold signed16.
  destruct (Z_lt_le_dec x 0) as [Hneg|Hpos].
  - replace (x mod 65536) with (x + 65536).
    + destruct (x + 65536 <? 32768)%Z eqn:Hc; [apply Z.ltb_lt in Hc|]; lia.
    + apply Z.mod_unique with (q := -1); lia.
  - rewrite Z.mod_small by lia.
    destruct (x <? 32768)%Z eqn:Hc; [|apply Z.ltb_ge in Hc]; lia.
Qed.

Lemma length_pcm16 (samples : list Z) :
  List.length (pcm16 samples) = (2 * List.length samples)%nat.
Proof.
  induction samples as [|x samples IH]; simpl; [reflexivity|].
  rewrite IH. lia.
Qed.

(** Reading the payload back as [int16] gives the samples. *)
Lemma frombuffer_pcm16 (samples : list Z) :
  Forall (fun x => -32768 <= x < 32768) samples ->
  frombuffer_int16 (pcm16 samples) = Some samples.
Proof.
  induction 1 as [|x samples Hx _ IH]; [reflexivity|].
  change (pcm16 (x :: samples))
    with (byte_of_Z x :: byte_of_Z (x / 256) :: pcm16 samples).
  cbn [frombuffer_int16]. rewrite IH.
  change [byte_of_Z x; byte_of_Z (x / 256)] with (le_bytes 2 x).
  rewrite (signed16_le_bytes x Hx). reflexivity.
Qed.

(** ** Reading the container *)

Section Readers.
Import Wave.
Local Open Scope Z_scope.

Lemma BytesIO_read_app (pre rest : list byte) (n : Z) :
  Z.of_nat (List.length pre) = n ->
  read ((pre ++ rest)%list : BytesIO) n = (pre, rest).
Proof.
  intros Hn. cbn [read BytesIO_FileLike]. unfold upto.
  rewrite length_app, Z.min_l by lia.
  rewrite <- Hn, Nat2Z.id.
  rewrite firstn_app, skipn_app, Nat.sub_diag, firstn_all, skipn_all.
  cbn [firstn skipn]. rewrite app_nil_r. reflexivity.
Qed.

(** A read that stays inside the chunk and does not reach the pad byte
    of a chunk of odd size is the read of the file under it. *)
Lemma Chunk_read_within {F} `{FileLike F} (c : Chunk F) (n : Z)
      (d : list byte) (f' : F) :
  read (file c) n = (d, f') ->
  Z.of_nat (List.length d) = n ->
  0 < n ->
  size_read c + n <= chunksize c ->
  Z.odd (chunksize c) = false \/ size_read c + n < chunksize c ->
  Chunk_read c n =
    (d, mkChunk (chunkname c) f' (chunksize c) (size_read c + n)).
Proof.
  intros Hread Hlen Hpos Hfit Hpad. unfold Chunk_read.
  destruct (chunksize c <=? size_read c) eqn:Hc;
    [apply Z.leb_le in Hc; lia|].
  rewrite Z.min_l by lia. rewrite Hread, Hlen.
  destruct Hpad as [Hpad|Hpad].
  - rewrite Hpad, andb_false_r. reflexivity.
  - destruct (size_read c + n =? chunksize c) eqn:He;
      [apply Z.eqb_eq in He; lia|]. reflexivity.
Qed.

Lemma Riff_read_app (name pre rest : list byte) (cs sr n : Z) :
  Z.of_nat (List.length pre) = n ->
  0 < n ->
  sr + n <= cs ->
  Z.odd cs = false \/ sr + n < cs ->
  Chunk_read (mkChunk name ((pre ++ rest)%list : BytesIO) cs sr : Riff) n =
    (pre, mkChunk name (rest : BytesIO) cs (sr + n)).
Proof.
  intros Hn Hpos Hfit Hpad.
  apply (Chunk_read_within
           (mkChunk name ((pre ++ rest)%list : BytesIO) cs sr));
    auto.
  apply BytesIO_read_app, Hn.
Qed.

Lemma SubChunk_read_app (name rname pre rest : list byte)
      (cs sr rcs rsr n : Z) :
  Z.of_nat (List.length pre) = n ->
  0 < n ->
  sr + n <= cs ->
  Z.odd cs = false \/ sr + n < cs ->
  rsr + n <= rcs ->
  Z.odd rcs = false \/ rsr + n < rcs ->
  Chunk_read
    (mkChunk name (mkChunk rname ((pre ++ rest)%list : BytesIO) rcs rsr)
             cs sr : SubChunk) n =
    (pre, mkChunk name (mkChunk rname (rest : BytesIO) rcs (rsr + n))
                  cs (sr + n)).
Proof.
  intros Hn Hpos Hfit Hpad Hrfit Hrpad.
  apply (Chunk_read_within
           (mkChunk name
              (mkChunk rname ((pre ++ rest)%list : BytesIO) rcs rsr)
              cs sr));
    auto.
  apply Riff_read_app; auto.
Qed.

(** A chunk header: four bytes of name, four of size. *)
Lemma Chunk_init_header {F} `{FileLike F} (f f1 f2 : F)
      (name : list byte) (size : Z) :
  read f 4 = (name, f1) ->
  List.length name = 4%nat ->
  read f1 4 = (le_bytes 4 size, f2) ->
  0 <= size < 4294967296 ->
  Chunk_init f = Some (mkChunk name f2 size 0).
Proof.
  intros H1 Hname H2 Hsize. unfold Chunk_init.
  rewrite H1, Hname, H2, length_le_bytes. cbn [Nat.ltb Nat.leb].
  rewrite le_uint_le_bytes_small; [reflexivity|].
  change (256 ^ Z.of_nat 4) with 4294967296. exact Hsize.
Qed.

Lemma Chunk_init_BytesIO (name rest : list byte) (size : Z) :
  List.length name = 4%nat ->
  0 <= size < 4294967296 ->
  Chunk_init ((name ++ le_bytes 4 size ++ rest)%list : BytesIO) =
    Some (mkChunk name (rest : BytesIO) size 0).
Proof.
  intros Hname Hsize.
  apply Chunk_init_header
    with (f1 := ((le_bytes 4 size ++ rest)%list : BytesIO));
    [ | exact Hname | | exact Hsize ].
  - apply BytesIO_read_app. lia.
  - apply BytesIO_read_app. rewrite length_le_bytes. reflexivity.
Qed.

Lemma Chunk_init_Riff (rname name rest : list byte) (rcs rsr size : Z) :
  List.length name = 4%nat ->
  0 <= size < 4294967296 ->
  rsr + 8 <= rcs ->
  Z.odd rcs = false \/ rsr + 8 < rcs ->
  Chunk_init (mkChunk rname ((name ++ le_bytes 4 size ++ rest)%list
                             : BytesIO) rcs rsr : Riff) =
    Some (mkChunk name (mkChunk rname (rest : BytesIO) rcs (rsr + 8))
                  size 0).
Proof.
  intros Hname Hsize Hfit Hpad.
  replace (rsr + 8) with (rsr + 4 + 4) by lia.
  apply Chunk_init_header
    with (f1 := mkChunk rname ((le_bytes 4 size ++ rest)%list : BytesIO)
                        rcs (rsr + 4));
    [ | exact Hname | | exact Hsize ].
  - apply Riff_read_app; lia.
  - apply Riff_read_app; try lia.
    + rewrite length_le_bytes. reflexivity.
    + destruct Hpad; [left; assumption | right; lia].
Qed.

Lemma le_uint2 (x : Z) :
  le_uint [byte_of_Z x; byte_of_Z (x / 256)] = x mod 65536.
Proof. exact (le_uint_le_bytes 2 x). Qed.

Lemma le_uint4 (x : Z) :
  le_uint [byte_of_Z x; byte_of_Z (x / 256); byte_of_Z (x / 256 / 256);
           byte_of_Z (x / 256 / 256 / 256)] = x mod 4294967296.
Proof. exact (le_uint_le_bytes 4 x). Qed.

End Readers.

(** ** Bodies in any layout *)

Section Layouts.
Import Wave.
Local Open Scope Z_scope.

(** The bytes a read returns do not depend on the pad byte. *)
Lemma Chunk_read_fst {F} `{FileLike F} (c : Chunk F) (n : Z) :
  size_read c < chunksize c ->
  fst (Chunk_read c n) =
    fst (read (file c) (Z.min n (chunksize c - size_read c))).
Proof.
  intros Hin. unfold Chunk_read.
  destruct (chunksize c <=? size_read c) eqn:Hc;
    [apply Z.leb_le in Hc; lia|].
  destruct (read (file c) _) as [data f1].
  destruct (_ && _); [destruct (read f1 1)|]; reflexivity.
Qed.

(** [chunk.skip()] moves the RIFF chunk over the rest of the chunk and
    its pad byte. *)
Lemma Chunk_skip_app (name rname skipped rest : list byte)
      (cs sr rcs rsr : Z) :
  Z.of_nat (List.length skipped) = cs - sr + (if Z.odd cs then 1 else 0) ->
  0 <= rsr ->
  rsr + Z.of_nat (List.length skipped) <= rcs ->
  Chunk_skip (mkChunk name
                (mkChunk rname ((skipped ++ rest)%list : BytesIO) rcs rsr)
                cs sr : SubChunk) =
    Some (mkChunk rname (rest : BytesIO) rcs
                  (rsr + Z.of_nat (List.length skipped))).
Proof.
  intros Hn Hr Hfit. unfold Chunk_skip. cbn [chunksize size_read file].
  set (n := if Z.odd cs then cs - sr + 1 else cs - sr).
  assert (En : n = Z.of_nat (List.length skipped))
    by (unfold n; destruct (Z.odd cs); lia).
  rewrite En. cbn [seek_cur Chunk_FileLike]. unfold Chunk_seek_cur.
  cbn [chunksize size_read file chunkname].
  destruct (_ <? 0) eqn:H1; [apply Z.ltb_lt in H1; lia|].
  destruct (rcs <? _) eqn:H2; [apply Z.ltb_lt in H2; lia|].
  cbn [orb seek_cur BytesIO_FileLike]. unfold upto.
  rewrite length_app, Z.min_l, Nat2Z.id by lia.
  rewrite skipn_app, Nat.sub_diag, skipn_all. cbn [skipn app].
  rewrite Z.add_comm. reflexivity.
Qed.

(** The [fmt ] chunk of a 16-bit PCM body, of sixteen bytes or more. *)
Lemma read_fmt_chunk_pcm16_any (name rname rest : list byte)
      (nch rate size rcs rsr : Z) :
  1 <= nch < 65536 ->
  0 <= rate < 4294967296 ->
  16 <= size ->
  rsr + 16 < rcs ->
  _read_fmt_chunk
    (mkChunk name
       (mkChunk rname ((fmt_pcm16 nch rate ++ rest)%list : BytesIO) rcs rsr)
       size 0) =
    inr (mkFmt nch rate 2 (nch * 2),
         mkChunk name (mkChunk rname (rest : BytesIO) rcs (rsr + 16))
                 size 16).
Proof.
  intros Hnch Hrate Hsize Hfit. unfold _read_fmt_chunk, fmt_pcm16.
  rewrite <- !app_assoc.
  change (le_bytes 2 1 ++ le_bytes 2 nch ++ le_bytes 4 rate
          ++ le_bytes 4 (rate * nch * 2) ++ le_bytes 2 (nch * 2)
          ++ le_bytes 2 16 ++ rest)%list
    with ((le_bytes 2 1 ++ le_bytes 2 nch ++ le_bytes 4 rate
           ++ le_bytes 4 (rate * nch * 2) ++ le_bytes 2 (nch * 2))
          ++ le_bytes 2 16 ++ rest)%list.
  rewrite SubChunk_read_app by first [reflexivity | lia].
  cbn [List.length app le_bytes Nat.ltb Nat.leb slice firstn skipn].
  rewrite !le_uint2, le_uint4.
  rewrite (Z.mod_small nch), (Z.mod_small rate) by lia.
  change (1 mod 65536 =? WAVE_FORMAT_PCM) with true. cbv iota.
  change (byte_of_Z 16 :: byte_of_Z (16 / 256) :: rest)
    with (le_bytes 2 16 ++ rest)%list.
  rewrite SubChunk_read_app;
    [ | reflexivity | lia | lia
      | destruct (Z.eq_dec size 16) as [->|];
          [left; reflexivity | right; lia]
      | lia | lia ].
  rewrite length_le_bytes. cbn [Nat.ltb Nat.leb].
  change (le_uint (le_bytes 2 16)) with 16.
  change ((16 + 7) / 8) with 2. change (2 =? 0) with false. cbv iota.
  destruct (nch =? 0) eqn:Hz; [apply Z.eqb_eq in Hz; lia|].
  replace (rsr + 14 + 2) with (rsr + 16) by lia. reflexivity.
Qed.

Lemma length_chunk_bytes (name contents : list byte) :
  List.length (chunk_bytes name contents) =
    (List.length name + 4 + List.length contents
     + (if Z.odd (Z.of_nat (List.length contents)) then 1 else 0))%nat.
Proof.
  unfold chunk_bytes. rewrite !length_app, length_le_bytes.
  destruct (Z.odd _); simpl; lia.
Qed.

Lemma other_name_spec (name : list byte) :
  other_name name = true ->
  List.length name = 4%nat
  /\ bytes_eqb name (b "fmt ") = false
  /\ bytes_eqb name (b "data") = false.
Proof.
  unfold other_name. rewrite !andb_true_iff, !negb_true_iff, Nat.eqb_eq.
  tauto.
Qed.

(** The chunk loop steps over chunks that are neither [fmt ] nor
    [data], one round each. *)
Lemma read_chunks_skips_others (cs : list (list byte * list byte)) :
  forall (k : nat) (rest : list byte) (rcs rsr : Z) (fmt : option Fmt),
    forallb (fun c => other_name (fst c)) cs = true ->
    Z.of_nat (List.length (chunks_bytes cs)) < 4294967296 ->
    0 <= rsr ->
    rsr + Z.of_nat (List.length (chunks_bytes cs)) < rcs ->
    read_chunks (List.length cs + k)
      (mkChunk (b "RIFF") ((chunks_bytes cs ++ rest)%list : BytesIO) rcs rsr)
      fmt =
    read_chunks k
      (mkChunk (b "RIFF") (rest : BytesIO) rcs
               (rsr + Z.of_nat (List.length (chunks_bytes cs))))
      fmt.
Proof.
  induction cs as [|[name contents] cs IH];
    intros k rest rcs rsr fmt Hnames Hsize Hr Hfit.
  - cbn [chunks_bytes flat_map List.length app Nat.add].
    rewrite Z.add_0_r. reflexivity.
  - cbn [forallb fst] in Hnames. apply andb_true_iff in Hnames as [Hn Hns].
    destruct (other_name_spec _ Hn) as [Hlen [Hfmt Hdata]].
    cbn [chunks_bytes flat_map fst snd] in *.
    fold (chunks_bytes cs) in *.
    rewrite length_app, length_chunk_bytes, Hlen in Hsize, Hfit.
    set (pad := if Z.odd (Z.of_nat (List.length contents))
                then [x00] else []) in *.
    assert (Hpad : Z.of_nat (List.length pad) =
                   if Z.odd (Z.of_nat (List.length contents)) then 1 else 0)
      by (unfold pad; destruct (Z.odd _); reflexivity).
    assert (Hpadn : (if Z.odd (Z.of_nat (List.length contents))
                     then 1 else 0)%nat = List.length pad)
      by (unfold pad; destruct (Z.odd _); reflexivity).
    rewrite Hpadn in Hsize, Hfit.
    unfold chunk_bytes. fold pad. rewrite <- !app_assoc.
    cbn [List.length Nat.add read_chunks].
    rewrite Chunk_init_Riff by first [assumption | lia | right; lia].
    cbn [chunkname]. rewrite Hfmt, Hdata.
    rewrite (app_assoc contents pad).
    rewrite Chunk_skip_app;
      [ | rewrite length_app, <- Hpad; lia | lia | rewrite length_app; lia ].
    rewrite IH by first [assumption | lia | rewrite length_app; lia].
    f_equal. f_equal. rewrite !length_app, length_le_bytes, Hlen. lia.
Qed.

Lemma length_chunks_bytes_ge (cs : list (list byte * list byte)) :
  (List.length cs <= List.length (chunks_bytes cs))%nat.
Proof.
  induction cs as [|[name contents] cs IH]; [reflexivity|].
  cbn [chunks_bytes flat_map fst snd List.length].
  fold (chunks_bytes cs). unfold chunk_bytes.
  rewrite !length_app, length_le_bytes. lia.
Qed.

(** The header of the last chunk of a file, with nothing after it. *)
Lemma Chunk_init_Riff_last (rname name : list byte) (rcs rsr size : Z) :
  List.length name = 4%nat ->
  0 <= size < 4294967296 ->
  rsr + 8 <= rcs ->
  Chunk_init (mkChunk rname ((name ++ le_bytes 4 size ++ [])%list : BytesIO)
                      rcs rsr : Riff) =
    Some (mkChunk name (mkChunk rname ([] : BytesIO) rcs (rsr + 8)) size 0).
Proof.
  intros Hname Hsize Hfit.
  destruct (Z.eq_dec (rsr + 8) rcs) as [Hend|Hmore];
    [|apply Chunk_init_Riff; first [assumption | right; lia]].
  unfold Chunk_init.
  assert (H1 : read (mkChunk rname ((name ++ le_bytes 4 size ++ [])%list
                                    : BytesIO) rcs rsr : Riff) 4 =
               (name, mkChunk rname ((le_bytes 4 size ++ [])%list : BytesIO)
                              rcs (rsr + 4)))
    by (apply Riff_read_app; lia).
  rewrite H1, Hname. cbn [Nat.ltb Nat.leb].
  cbn [read Chunk_FileLike]. unfold Chunk_read.
  cbn [chunksize size_read file chunkname].
  destruct (rcs <=? rsr + 4) eqn:Hc; [apply Z.leb_le in Hc; lia|].
  rewrite Z.min_l by lia.
  rewrite (BytesIO_read_app (le_bytes 4 size) [] 4)
    by (rewrite length_le_bytes; reflexivity).
  assert (Hle : le_uint (le_bytes 4 size) = size)
    by (apply le_uint_le_bytes_small;
        change (256 ^ Z.of_nat 4) with 4294967296; exact Hsize).
  destruct (_ && _).
  - cbn [read BytesIO_FileLike firstn skipn upto List.length].
    rewrite !firstn_nil, !skipn_nil, length_le_bytes.
    cbn [List.length Z.of_nat Nat.ltb Nat.leb]. rewrite Hle.
    do 3 f_equal. lia.
  - rewrite length_le_bytes. cbn [Nat.ltb Nat.leb]. rewrite Hle.
    do 3 f_equal. lia.
Qed.

Lemma length_fmt_pcm16 (nch rate : Z) :
  List.length (fmt_pcm16 nch rate) = 16%nat.
Proof. reflexivity. Qed.

(** Opening a well-formed body: the format of the [fmt ] chunk, and the
    [data] chunk standing at the start of the samples. *)
Lemma open_wav_form (L : WavLayout) (nch rate : Z) (payload : list byte) :
  well_formed L = true ->
  1 <= nch < 65536 ->
  0 <= rate < 4294967296 ->
  Z.of_nat (List.length (wav_form L nch rate payload)) < 4294967296 ->
  exists rsr : Z,
    0 <= rsr
    /\ rsr + Z.of_nat (List.length payload)
       <= Z.of_nat (List.length (wav_form L nch rate payload))
    /\ Wave.open (b "RIFF"
                  ++ le_bytes 4 (Z.of_nat
                                   (List.length (wav_form L nch rate payload)))
                  ++ wav_form L nch rate payload) =
       inr (mkWave_read
              (mkFmt nch rate 2 (nch * 2))
              (Z.of_nat (List.length payload) / (nch * 2))
              (mkChunk (b "data")
                 (mkChunk (b "RIFF")
                    ((payload ++ after_data L)%list : BytesIO)
                    (Z.of_nat (List.length (wav_form L nch rate payload)))
                    rsr)
                 (Z.of_nat (List.length payload)) 0)).
Proof.
  intros Hwf Hnch Hrate Hsize.
  apply andb_true_iff in Hwf as [Hpre Hmid].
  set (pre := before_fmt L) in *. set (mid := before_data L) in *.
  set (ext := fmt_extension L). set (tail := after_data L).
  set (fmtc := (fmt_pcm16 nch rate ++ ext)%list).
  set (padF := if Z.odd (Z.of_nat (List.length fmtc)) then [x00] else []).
  assert (HpadF : Z.of_nat (List.length padF) =
                  if Z.odd (Z.of_nat (List.length fmtc)) then 1 else 0)
    by (unfold padF; destruct (Z.odd _); reflexivity).
  assert (HF : Z.of_nat (List.length fmtc) =
               16 + Z.of_nat (List.length ext))
    by (unfold fmtc; rewrite length_app, length_fmt_pcm16; lia).
  remember (Z.of_nat (List.length (wav_form L nch rate payload))) as R
    eqn:HR.
  assert (ER : R = 4 + Z.of_nat (List.length (chunks_bytes pre))
                   + (8 + Z.of_nat (List.length fmtc)
                      + Z.of_nat (List.length padF))
                   + Z.of_nat (List.length (chunks_bytes mid))
                   + 8 + Z.of_nat (List.length payload)
                   + Z.of_nat (List.length tail)).
  { rewrite HR. unfold wav_form. fold pre mid ext tail fmtc.
    unfold chunk_bytes. fold padF.
    rewrite !length_app, !length_le_bytes.
    change (List.length (b "WAVE")) with 4%nat.
    change (List.length (b "fmt ")) with 4%nat.
    change (List.length (b "data")) with 4%nat. lia. }
  clear HR.
  exists (4 + Z.of_nat (List.length (chunks_bytes pre))
          + (8 + Z.of_nat (List.length fmtc) + Z.of_nat (List.length padF))
          + Z.of_nat (List.length (chunks_bytes mid)) + 8).
  split; [lia|]. split; [lia|].
  unfold Wave.open.
  match goal with |- context [read_chunks (S ?n)] => set (fuel := n) end.
  assert (Hfuel : exists k : nat,
             S fuel = (List.length pre + S (List.length mid + S k))%nat).
  { exists (fuel - List.length pre - List.length mid - 1)%nat.
    pose proof (length_chunks_bytes_ge pre).
    pose proof (length_chunks_bytes_ge mid).
    assert (Z.of_nat fuel = 8 + R).
    { unfold fuel. rewrite !length_app, length_le_bytes.
      change (List.length (b "RIFF")) with 4%nat.
      rewrite ER. unfold wav_form. fold pre mid ext tail fmtc.
      unfold chunk_bytes. fold padF.
      rewrite !length_app, !length_le_bytes.
      change (List.length (b "WAVE")) with 4%nat.
      change (List.length (b "fmt ")) with 4%nat.
      change (List.length (b "data")) with 4%nat. lia. }
    lia. }
  destruct Hfuel as [k ->]. clear fuel.
  rewrite Chunk_init_BytesIO by first [reflexivity | lia].
  cbn [chunkname].
  change (negb (bytes_eqb (b "RIFF") (b "RIFF"))) with false. cbv iota.
  unfold wav_form. fold pre mid ext tail fmtc.
  rewrite Riff_read_app by first [reflexivity | lia | right; lia].
  change (negb (bytes_eqb (b "WAVE") (b "WAVE"))) with false. cbv iota.
  rewrite read_chunks_skips_others by first [assumption | lia].
  cbn [read_chunks].
  unfold chunk_bytes at 1. fold padF. rewrite <- !app_assoc.
  rewrite Chunk_init_Riff by first [reflexivity | lia | right; lia].
  cbn [chunkname].
  change (bytes_eqb (b "fmt ") (b "fmt ")) with true. cbv iota.
  unfold fmtc at 1. rewrite <- !app_assoc.
  rewrite read_fmt_chunk_pcm16_any by lia.
  rewrite (app_assoc ext padF).
  rewrite Chunk_skip_app;
    [ | rewrite length_app, <- HpadF; lia | lia | rewrite length_app; lia ].
  rewrite read_chunks_skips_others
    by first [assumption | lia | rewrite length_app; lia].
  cbn [read_chunks].
  destruct (Z.eq_dec (Z.of_nat (List.length payload)
                      + Z.of_nat (List.length tail)) 0) as [Hend|Hmore].
  - assert (Hp : payload = []) by (destruct payload; [reflexivity|cbn [List.length] in Hend; lia]).
    assert (Ht : tail = []) by (destruct tail; [reflexivity|cbn [List.length] in Hend; lia]).
    rewrite Hp, Ht in *. cbn [app List.length Z.of_nat] in *.
    rewrite Chunk_init_Riff_last
      by first [reflexivity | lia | rewrite length_app; lia].
    cbn [chunkname chunksize fmt_framesize].
    change (bytes_eqb (b "data") (b "fmt ")) with false.
    change (bytes_eqb (b "data") (b "data")) with true. cbv iota.
    match goal with
    | |- inr (mkWave_read _ _ (mkChunk _ (mkChunk _ _ _ ?x) _ _)) =
         inr (mkWave_read _ _ (mkChunk _ (mkChunk _ _ _ ?y) _ _)) =>
        replace x with y by (rewrite length_app; lia)
    end.
    reflexivity.
  - rewrite Chunk_init_Riff
      by first [reflexivity | lia | rewrite length_app; lia
               | right; rewrite length_app; lia].
    cbn [chunkname chunksize fmt_framesize].
    change (bytes_eqb (b "data") (b "fmt ")) with false.
    change (bytes_eqb (b "data") (b "data")) with true. cbv iota.
    match goal with
    | |- inr (mkWave_read _ _ (mkChunk _ (mkChunk _ _ _ ?x) _ _)) =
         inr (mkWave_read _ _ (mkChunk _ (mkChunk _ _ _ ?y) _ _)) =>
        replace x with y by (rewrite length_app; lia)
    end.
    reflexivity.
Qed.

(** Reading all frames gives the samples' bytes back, whatever follows
    them in the file. *)
Lemma readframes_data_chunk (fm : Fmt) (payload tail : list byte)
      (rcs rsr : Z) :
  0 < fmt_framesize fm ->
  Z.of_nat (List.length payload) mod fmt_framesize fm = 0 ->
  0 <= rsr ->
  rsr + Z.of_nat (List.length payload) <= rcs ->
  let wf := mkWave_read fm
              (Z.of_nat (List.length payload) / fmt_framesize fm)
              (mkChunk (b "data")
                 (mkChunk (b "RIFF") ((payload ++ tail)%list : BytesIO)
                          rcs rsr)
                 (Z.of_nat (List.length payload)) 0) in
  readframes wf (getnframes wf) = payload.
Proof.
  intros Hfs Hframes Hr Hfit wf. unfold readframes, getnframes. subst wf.
  cbn [_nframes _fmt _data_chunk].
  set (D := Z.of_nat (List.length payload)) in *.
  assert (Hall : D / fmt_framesize fm * fmt_framesize fm = D).
  { pose proof (Z.div_mod D (fmt_framesize fm) ltac:(lia)) as E. lia. }
  destruct (D / fmt_framesize fm =? 0) eqn:Hz.
  - apply Z.eqb_eq in Hz. rewrite Hz in Hall.
    destruct payload; [reflexivity|].
    unfold D in Hall. cbn [List.length] in Hall. lia.
  - rewrite Hall.
    assert (Hpos : 0 < D) by (apply Z.eqb_neq in Hz; unfold D in *; lia).
    rewrite Chunk_read_fst by (cbn [size_read chunksize]; lia).
    cbn [size_read chunksize file read Chunk_FileLike].
    rewrite (@Chunk_read_fst BytesIO BytesIO_FileLike)
      by (cbn [size_read chunksize]; lia).
    cbn [size_read chunksize file].
    rewrite Z.sub_0_r, Z.min_id, Z.min_l by lia.
    rewrite (BytesIO_read_app payload tail D) by reflexivity.
    reflexivity.
Qed.
End Layouts.

(** The decode step on a well-formed body in any layout. *)
Lemma wav_decode_body (L : WavLayout) (nch rate : Z) (samples : list Z) :
  well_formed L = true ->
  1 <= nch < 65536 ->
  0 <= rate < 4294967296 ->
  Forall (fun x => -32768 <= x < 32768) samples ->
  Z.of_nat (List.length samples) mod nch = 0 ->
  Z.of_nat (List.length (wav_body L nch rate samples)) < 4294967296 ->
  wav_decode (wav_body L nch rate samples) = inr (rate, samples).
Proof.
  intros Hwf Hnch Hrate Hrange Hframes Hsize.
  assert (Hlen : Z.of_nat (List.length (pcm16 samples)) =
                 2 * Z.of_nat (List.length samples))
    by (rewrite length_pcm16; lia).
  unfold wav_body in *. cbv zeta in *.
  rewrite !length_app in Hsize.
  destruct (open_wav_form L nch rate (pcm16 samples) Hwf Hnch Hrate)
    as [rsr [Hr [Hfit Hopen]]]; [lia|].
  unfold wav_decode. rewrite Hopen.
  rewrite (readframes_data_chunk (Wave.mkFmt nch rate 2 (nch * 2)));
    cbn [Wave.fmt_framesize]; try lia.
  - rewrite (frombuffer_pcm16 samples Hrange). reflexivity.
  - rewrite Hlen.
    apply Z.mod_divide in Hframes; [|lia].
    destruct Hframes as [q Hq]. rewrite Hq.
    replace (2 * (q * nch)) with (q * (nch * 2)) by lia.
    apply Z.mod_mul. lia.
Qed.

(** The encoder writes the layout with nothing added. *)
Lemma wav_encode_plain (nch rate : Z) (samples : list Z) :
  wav_encode nch rate samples = wav_body plain_layout nch rate samples.
Proof.
  unfold wav_encode, wav_body, wav_header, wav_form, plain_layout.
  cbv zeta. cbn [before_fmt fmt_extension before_data after_data
                 chunks_bytes flat_map].
  rewrite !app_nil_r. cbn [app].
  unfold chunk_bytes. rewrite length_fmt_pcm16.
  change (Z.odd (Z.of_nat 16)) with false. cbv iota. rewrite app_nil_r.
  rewrite !length_app, !length_le_bytes, length_fmt_pcm16.
  change (List.length (b "WAVE")) with 4%nat.
  change (List.length (b "fmt ")) with 4%nat.
  change (List.length (b "data")) with 4%nat.
  match goal with
  | |- context [le_bytes 4 (Z.of_nat (4 + ?n))] =>
      replace (Z.of_nat (4 + n))
        with (36 + Z.of_nat (List.length (pcm16 samples))) by lia
  end.
  unfold fmt_pcm16. rewrite <- !app_assoc. reflexivity.
Qed.

(** C8: a sample array written as a well-formed 16-bit PCM WAV body, in
    the encoder's plain layout or in any other (chunks before the
    format, a longer [fmt ] chunk, chunks before the samples, bytes
    after them), comes back from the decode step bit for bit, with the
    sample rate of the header; and when the synthesis endpoint answers
    200 with that body, [speak] calls the player once, with exactly
    those samples at that rate, and returns if the device plays them. *)
Theorem C8_wav_roundtrip_and_playback :
  forall (L : WavLayout) (nchannels framerate : Z) (samples : list Z)
         (text voice code : string) (w : World) (s : TokenCls)
         (tok : value) (r : Response),
    well_formed L = true ->
    1 <= nchannels < 65536 ->
    0 <= framerate < 4294967296 ->
    Forall (fun x => -32768 <= x < 32768) samples ->
    Z.of_nat (List.length samples) mod nchannels = 0 ->
    Z.of_nat (List.length (wav_body L nchannels framerate samples))
      < 4294967296 ->
    Py.get valid_voices voice = Some code ->
    outcome (Token.get_token w s) = inr tok ->
    post w (synthesize_request code tok text) = Reply r ->
    status_code r = 200 ->
    content r = wav_body L nchannels framerate samples ->
    wav_encode nchannels framerate samples
      = wav_body plain_layout nchannels framerate samples
    /\ wav_decode (wav_body L nchannels framerate samples)
       = inr (framerate, samples)
    /\ plays (trace (speak text voice w s)) = [(samples, framerate)]
    /\ outcome (speak text voice w s) = play_result w samples framerate.
Proof.
  intros L nchannels framerate samples text voice code w s tok r
         Hwf Hnch Hrate Hrange Hframes Hsize Hcode Htok Hpost Hst Hbody.
  pose proof (wav_decode_body L nchannels framerate samples
                Hwf Hnch Hrate Hrange Hframes Hsize) as Hdec.
  split; [apply wav_encode_plain|]. split; [exact Hdec|].
  rewrite (speak_run text voice code w s Hcode).
  pose proof (get_token_plays w s) as Hpl.
  unfold outcome in Htok. unfold trace in Hpl.
  destruct (Token.get_token w s) as [[[e|token] s1] t1]; simpl in Htok, Hpl;
    [discriminate|]. injection Htok as ->.
  cbv zeta. rewrite Hpost, Hst, Hbody, Hdec.
  unfold outcome, trace. simpl. split; [|reflexivity].
  rewrite plays_app, Hpl. reflexivity.
Qed.

Lemma C8_wav_roundtrip_and_playback_witness :
  let samples := [1; -2; 300; -32768; 32767; 0] in
  let body := wav_body busy_layout 2 24000 samples in
  let w := mkWorld (env_key "a2V5") 0 "u" (peer_ok "T" 99999 body) in
  wav_encode 2 24000 samples = wav_body plain_layout 2 24000 samples
  /\ wav_decode body = inr (24000, samples)
  /\ plays (trace (speak "Привет" "Борис" w Token_initial))
     = [(samples, 24000)]
  /\ outcome (speak "Привет" "Борис" w Token_initial)
     = play_result w samples 24000.
Proof.
  apply (C8_wav_roundtrip_and_playback busy_layout 2 24000
           [1; -2; 300; -32768; 32767; 0] "Привет" "Борис" "Bys"
           (mkWorld (env_key "a2V5") 0 "u"
              (peer_ok "T" 99999
                 (wav_body busy_layout 2 24000
                    [1; -2; 300; -32768; 32767; 0])))
           Token_initial (VStr "T")
           (mkResponse 200
              (wav_body busy_layout 2 24000 [1; -2; 300; -32768; 32767; 0])
              (Some [ ("access_token", VStr "T");
                      ("expires_at", VInt 99999) ]))).
  - reflexivity.
  - lia.
  - lia.
  - repeat constructor; lia.
  - reflexivity.
  - vm_compute. reflexivity.
  - reflexivity.
  - reflexivity.
  - reflexivity.
  - reflexivity.
  - reflexivity.
Defined.

(** * Further properties of the token cache *)

(** [get_token] sends a token request exactly when a refresh is due (no
    token cached, or an integer expiry below [now - 2000]), and then
    exactly one; in every other case, the [TypeError] of a string expiry
    included, it sends nothing. *)
Theorem get_token_requests_iff_refresh_due :
  forall (w : World) (s : TokenCls),
    posts (trace (Token.get_token w s)) =
      if refresh_due w s
      then [oauth_request (authdata_for w s) (uuid4 w)]
      else [].
Proof.
  intros w s. destruct (refresh_due w s) eqn:Hdue.
  - rewrite (get_token_refreshes w s Hdue).
    destruct (read_token_reply _) as [e|[tok exp]];
      apply refresh_trace_posts.
  - destruct (_expires_in s) as [|x|e] eqn:Hexp.
    + rewrite get_token_served; auto. rewrite Hexp. discriminate.
    + apply orb_false_iff in Hdue as [Hn _].
      rewrite (get_token_TypeError w s x Hn Hexp). reflexivity.
    + rewrite get_token_served; auto. rewrite Hexp. discriminate.
Qed.

(** Token and expiry are replaced together or not at all: a call that
    raises leaves both as they were; a call that returns hands back the
    token the cache then holds, and that cache is either the old one or
    the pair the token endpoint granted. *)
Theorem get_token_replaces_both_or_neither :
  forall (w : World) (s : TokenCls),
    let run := Token.get_token w s in
    (exists e, outcome run = inl e
               /\ _token (final run) = _token s
               /\ _expires_in (final run) = _expires_in s)
    \/
    (outcome run = inr (_token (final run))
     /\ ((_token (final run) = _token s
          /\ _expires_in (final run) = _expires_in s)
         \/ read_token_reply
              (post w (oauth_request (authdata_for w s) (uuid4 w)))
            = inr (_token (final run), _expires_in (final run)))).
Proof.
  intros w s. cbv zeta. destruct (refresh_due w s) eqn:Hdue.
  - rewrite (get_token_refreshes w s Hdue).
    destruct (read_token_reply _) as [e|[tok exp]] eqn:Hreply.
    + left. exists e. repeat split.
    + right. split; [reflexivity|]. right. reflexivity.
  - destruct (_expires_in s) as [|x|e] eqn:Hexp.
    + right.
      rewrite get_token_served
        by first [assumption | intro; rewrite ?Hexp; discriminate].
      split; [reflexivity|]. left. split; [reflexivity | exact Hexp].
    + apply orb_false_iff in Hdue as [Hn _].
      left. exists TypeError.
      rewrite (get_token_TypeError w s x Hn Hexp).
      split; [reflexivity|]. split; [reflexivity | exact Hexp].
    + right.
      rewrite get_token_served
        by first [assumption | intro; rewrite ?Hexp; discriminate].
      split; [reflexivity|]. left. split; [reflexivity | exact Hexp].
Qed.

(** One granted token serves the later calls: after a refresh that
    stored the token [tok] with the integer expiry [e], a call at any
    time up to [e + 2000] returns [tok] and has no effect. *)
Theorem get_token_refresh_then_reuse :
  forall (w1 w2 : World) (s : TokenCls) (r : Response) (d : dict value)
         (tok : string) (e : Z),
    refresh_due w1 s = true ->
    post w1 (oauth_request (authdata_for w1 s) (uuid4 w1)) = Reply r ->
    status_code r = 200 ->
    json r = Some d ->
    Py.get d "access_token" = Some (VStr tok) ->
    Py.get d "expires_at" = Some (VInt e) ->
    now_ms w2 <= e + 2000 ->
    outcome (Token.get_token w1 s) = inr (VStr tok)
    /\ Token.get_token w2 (final (Token.get_token w1 s)) =
         (inr (VStr tok), final (Token.get_token w1 s), []).
Proof.
  intros w1 w2 s r d tok e Hdue Hpost Hst Hjson Htok Hexp Hnow.
  rewrite (get_token_refreshes w1 s Hdue), Hpost.
  unfold read_token_reply. rewrite Hst, Hjson, Htok, Hexp. simpl.
  unfold outcome, final. simpl. split; [reflexivity|].
  rewrite get_token_served.
  - reflexivity.
  - unfold refresh_due. simpl. apply Z.ltb_ge. lia.
  - simpl. discriminate.
Qed.

Lemma get_token_refresh_then_reuse_witness :
  let w1 := mkWorld (env_key "a2V5") 1000 "u" (peer_ok "T" 60000 []) in
  let w2 := mkWorld env_absent 62000 "v" (peer_status 500) in
  outcome (Token.get_token w1 Token_initial) = inr (VStr "T")
  /\ Token.get_token w2 (final (Token.get_token w1 Token_initial)) =
       (inr (VStr "T"), final (Token.get_token w1 Token_initial), []).
Proof.
  apply (get_token_refresh_then_reuse
           (mkWorld (env_key "a2V5") 1000 "u" (peer_ok "T" 60000 []))
           (mkWorld env_absent 62000 "v" (peer_status 500))
           Token_initial
           (mkResponse 200 []
              (Some [ ("access_token", VStr "T");
                      ("expires_at", VInt 60000) ]))
           [ ("access_token", VStr "T"); ("expires_at", VInt 60000) ]
           "T" 60000); first [reflexivity | simpl; lia].
Defined.




(** A 200 reply without [expires_at] raises [KeyError] for that key and
    the token that came with it is dropped: the cache keeps the old
    token and expiry. *)
Theorem get_token_missing_expiry_keeps_cache :
  forall (w : World) (s : TokenCls) (r : Response) (d : dict value)
         (tok : value),
    refresh_due w s = true ->
    post w (oauth_request (authdata_for w s) (uuid4 w)) = Reply r ->
    status_code r = 200 ->
    json r = Some d ->
    Py.get d "access_token" = Some tok ->
    Py.get d "expires_at" = None ->
    outcome (Token.get_token w s) = inl (KeyError "expires_at")
    /\ _token (final (Token.get_token w s)) = _token s
    /\ _expires_in (final (Token.get_token w s)) = _expires_in s.
Proof.
  intros w s r d tok Hdue Hpost Hst Hjson Htok Hexp.
  rewrite (get_token_refreshes w s Hdue), Hpost.
  unfold read_token_reply. rewrite Hst, Hjson, Htok, Hexp. simpl.
  repeat split.
Qed.

Lemma get_token_missing_expiry_keeps_cache_witness :
  let w := mkWorld (env_key "a2V5") 20000 "u"
                   (peer_json [ ("access_token", VStr "new") ]) in
  let s := cached "a2V5" "old" (VInt 10000) in
  outcome (Token.get_token w s) = inl (KeyError "expires_at")
  /\ _token (final (Token.get_token w s)) = VStr "old"
  /\ _expires_in (final (Token.get_token w s)) = VInt 10000.
Proof.
  apply (get_token_missing_expiry_keeps_cache
           (mkWorld (env_key "a2V5") 20000 "u"
                    (peer_json [ ("access_token", VStr "new") ]))
           (cached "a2V5" "old" (VInt 10000))
           (mkResponse 200 [] (Some [ ("access_token", VStr "new") ]))
           [ ("access_token", VStr "new") ] (VStr "new")); reflexivity.
Defined.

(** Once a credential is cached, every refresh sends it, whatever the
    environment holds by then, and the environment is not read. *)
Theorem refresh_uses_cached_credential :
  forall (w : World) (s : TokenCls) (key : string),
    _authdata s = Some key ->
    refresh_due w s = true ->
    trace (Token.get_token w s) =
      [HttpPost (oauth_request (Some key) (uuid4 w))]
    /\ Py.get (headers (oauth_request (Some key) (uuid4 w))) "Authorization"
       = Some ("Basic " ++ key)
    /\ _authdata (final (Token.get_token w s)) = Some key.
Proof.
  intros w s key Hkey Hdue.
  rewrite (get_token_refreshes w s Hdue).
  unfold refresh_trace, with_authdata, authdata_for. rewrite Hkey.
  destruct (read_token_reply _) as [e|[tok exp]]; repeat split.
Qed.

Lemma refresh_uses_cached_credential_witness :
  let w := mkWorld (env_key "b3RoZXI=") 20000 "u" (peer_ok "T" 99999 []) in
  let s := cached "a2V5" "old" (VInt 10000) in
  trace (Token.get_token w s) = [HttpPost (oauth_request (Some "a2V5") "u")]
  /\ Py.get (headers (oauth_request (Some "a2V5") "u")) "Authorization"
     = Some ("Basic " ++ "a2V5")
  /\ _authdata (final (Token.get_token w s)) = Some "a2V5".
Proof.
  apply (refresh_uses_cached_credential
           (mkWorld (env_key "b3RoZXI=") 20000 "u" (peer_ok "T" 99999 []))
           (cached "a2V5" "old" (VInt 10000)) "a2V5"); reflexivity.
Defined.

Lemma get_token_margin_is_behind_now_witness :
  Token.get_token (mkWorld env_absent 12000 "u" (peer_ok "new" 99999 []))
                  (cached "a2V5" "old" (VInt 10000))
  = (inr (VStr "old"), cached "a2V5" "old" (VInt 10000), []).
Proof.
  apply (get_token_margin_is_behind_now
           (mkWorld env_absent 12000 "u" (peer_ok "new" 99999 []))
           (cached "a2V5" "old" (VInt 10000)) "old" 10000);
    first [reflexivity | simpl; lia].
Defined.

Lemma get_token_replaces_long_expired_witness :
  let w := mkWorld env_absent 12001 "u" (peer_ok "new" 99999 []) in
  let s := cached "a2V5" "old" (VInt 10000) in
  outcome (Token.get_token w s) = inr (VStr "new")
  /\ _token (final (Token.get_token w s)) = VStr "new"
  /\ _expires_in (final (Token.get_token w s)) = VInt 99999
  /\ posts (trace (Token.get_token w s)) =
       [oauth_request (authdata_for w s) (uuid4 w)].
Proof.
  apply (get_token_replaces_long_expired
           (mkWorld env_absent 12001 "u" (peer_ok "new" 99999 []))
           (cached "a2V5" "old" (VInt 10000)) "old" 10000
           (mkResponse 200 []
              (Some [ ("access_token", VStr "new");
                      ("expires_at", VInt 99999) ]))
           (VStr "new") (VInt 99999));
    first [reflexivity | simpl; lia].
Defined.

(** A [null] in [access_token] is stored like a token but never served:
    the call that receives it returns [None], and the next call finds
    no token and asks again, whatever the expiry that came with it. *)
Theorem get_token_null_token_is_requested_again :
  forall (w1 w2 : World) (s : TokenCls) (r : Response) (d : dict value)
         (exp : value),
    refresh_due w1 s = true ->
    post w1 (oauth_request (authdata_for w1 s) (uuid4 w1)) = Reply r ->
    status_code r = 200 ->
    json r = Some d ->
    Py.get d "access_token" = Some VNone ->
    Py.get d "expires_at" = Some exp ->
    outcome (Token.get_token w1 s) = inr VNone
    /\ List.length
         (posts (trace (Token.get_token w2 (final (Token.get_token w1 s)))))
       = 1%nat.
Proof.
  intros w1 w2 s r d exp Hdue Hpost Hst Hjson Htok Hexp.
  rewrite (get_token_refreshes w1 s Hdue), Hpost.
  unfold read_token_reply. rewrite Hst, Hjson, Htok, Hexp. simpl.
  unfold outcome, final. simpl. split; [reflexivity|].
  rewrite get_token_refreshes by reflexivity.
  destruct (read_token_reply _) as [e|[tok' exp']];
    unfold trace; simpl; rewrite refresh_trace_posts; reflexivity.
Qed.

Lemma get_token_null_token_is_requested_again_witness :
  let reply := [ ("access_token", VNone); ("expires_at", VInt 99999) ] in
  let w1 := mkWorld (env_key "a2V5") 0 "u" (peer_json reply) in
  let w2 := mkWorld (env_key "a2V5") 1 "v" (peer_json reply) in
  outcome (Token.get_token w1 Token_initial) = inr VNone
  /\ List.length
       (posts (trace (Token.get_token w2
                        (final (Token.get_token w1 Token_initial)))))
     = 1%nat.
Proof.
  apply (get_token_null_token_is_requested_again
           (mkWorld (env_key "a2V5") 0 "u"
              (peer_json [ ("access_token", VNone);
                           ("expires_at", VInt 99999) ]))
           (mkWorld (env_key "a2V5") 1 "v"
              (peer_json [ ("access_token", VNone);
                           ("expires_at", VInt 99999) ]))
           Token_initial
           (mkResponse 200 []
              (Some [ ("access_token", VNone);
                      ("expires_at", VInt 99999) ]))
           [ ("access_token", VNone); ("expires_at", VInt 99999) ]
           (VInt 99999)); reflexivity.
Defined.

(** * Further properties of [speak] *)

Lemma contains_get {V} (d : dict V) (k : string) :
  contains (keys d) k = true -> exists v, Py.get d k = Some v.
Proof.
  induction d as [|[k' v'] d IH]; simpl; [discriminate|].
  destruct (String.eqb k' k); simpl; eauto.
Qed.

(** Whatever [get_token] sends is the one OAuth request. *)
Lemma get_token_requests_sent (w : World) (s : TokenCls) (req : Request) :
  In req (posts (trace (Token.get_token w s))) ->
  req = oauth_request (authdata_for w s) (uuid4 w).
Proof.
  intros Hin. destruct (refresh_due w s) eqn:Hdue.
  - rewrite (get_token_refreshes w s Hdue) in Hin.
    assert (Hp : In req (posts (refresh_trace w s)))
      by (destruct (read_token_reply _) as [e|[tok exp]]; exact Hin).
    rewrite refresh_trace_posts in Hp. destruct Hp as [<-|[]]. reflexivity.
  - destruct (_expires_in s) as [|x|e] eqn:Hexp.
    + rewrite get_token_served in Hin
        by first [assumption | intro; rewrite ?Hexp; discriminate].
      destruct Hin.
    + apply orb_false_iff in Hdue as [Hn _].
      rewrite (get_token_TypeError w s x Hn Hexp) in Hin. destruct Hin.
    + rewrite get_token_served in Hin
        by first [assumption | intro; rewrite ?Hexp; discriminate].
      destruct Hin.
Qed.

(** With a token in hand: the cache [speak] leaves is the one
    [get_token] left, and its requests are those of [get_token] followed
    by the synthesis request. *)
Lemma speak_after_token (text voice code : string) (w : World)
      (s s1 : TokenCls) (tok : value) (t1 : list Event) :
  Py.get valid_voices voice = Some code ->
  Token.get_token w s = (inr tok, s1, t1) ->
  final (speak text voice w s) = s1
  /\ posts (trace (speak text voice w s)) =
       (posts t1 ++ [synthesize_request code tok text])%list.
Proof.
  intros Hcode Hrun. rewrite (speak_run text voice code w s Hcode), Hrun.
  cbv zeta. unfold final, trace.
  destruct (post w _) as [r|]; simpl.
  - destruct (status_code r =? 200)%Z; simpl.
    + destruct (wav_decode (content r)) as [e|[rate audio]]; simpl;
        rewrite posts_app; split; reflexivity.
    + rewrite posts_app. split; reflexivity.
  - rewrite posts_app. split; reflexivity.
Qed.

(** When [get_token] raises, [speak] raises the same exception and does
    nothing more: no synthesis request, no playback. *)
Theorem speak_stops_at_token_failure :
  forall (text voice code : string) (w : World) (s : TokenCls) (e : exn),
    Py.get valid_voices voice = Some code ->
    outcome (Token.get_token w s) = inl e ->
    outcome (speak text voice w s) = inl e
    /\ final (speak text voice w s) = final (Token.get_token w s)
    /\ trace (speak text voice w s) = trace (Token.get_token w s)
    /\ plays (trace (speak text voice w s)) = [].
Proof.
  intros text voice code w s e Hcode Hfail.
  pose proof (get_token_plays w s) as Hpl.
  rewrite (speak_run text voice code w s Hcode).
  unfold outcome, final, trace in *.
  destruct (Token.get_token w s) as [[[e'|tok] s1] t1]; simpl in *;
    [|discriminate].
  injection Hfail as ->. repeat split. exact Hpl.
Qed.

Lemma speak_stops_at_token_failure_witness :
  let w := mkWorld (env_key "a2V5") 0 "u" (peer_status 401) in
  outcome (speak "Привет" "Борис" w Token_initial) =
    inl (Exception "Failed to obtain token")
  /\ final (speak "Привет" "Борис" w Token_initial) =
       final (Token.get_token w Token_initial)
  /\ trace (speak "Привет" "Борис" w Token_initial) =
       trace (Token.get_token w Token_initial)
  /\ plays (trace (speak "Привет" "Борис" w Token_initial)) = [].
Proof.
  apply (speak_stops_at_token_failure "Привет" "Борис" "Bys"
           (mkWorld (env_key "a2V5") 0 "u" (peer_status 401))
           Token_initial (Exception "Failed to obtain token"));
    reflexivity.
Defined.

(** [speak] calls the player at most once, and only as its last step.
    A call that returns has handed one array to the player, which played
    it; a call that raises has either not reached the player at all, or
    handed it one array and got the player's own error back. *)
Theorem speak_calls_player_at_most_once :
  forall (text voice : string) (w : World) (s : TokenCls),
    match outcome (speak text voice w s) with
    | inr _ =>
        exists audio rate,
          plays (trace (speak text voice w s)) = [(audio, rate)]
          /\ sd_play_error w audio rate = None
    | inl e =>
        plays (trace (speak text voice w s)) = []
        \/ exists audio rate msg,
             plays (trace (speak text voice w s)) = [(audio, rate)]
             /\ sd_play_error w audio rate = Some msg
             /\ e = PortAudioError msg
    end.
Proof.
  intros text voice w s.
  destruct (contains (keys valid_voices) voice) eqn:Hc.
  - destruct (contains_get _ _ Hc) as [code Hcode].
    rewrite (speak_run text voice code w s Hcode).
    pose proof (get_token_plays w s) as Hpl. unfold trace in Hpl.
    destruct (Token.get_token w s) as [[[e|tok] s1] t1]; simpl in Hpl.
    + left. exact Hpl.
    + cbv zeta. unfold outcome, trace.
      destruct (post w _) as [r|]; simpl.
      * destruct (status_code r =? 200)%Z; simpl.
        -- destruct (wav_decode (content r)) as [e|[rate audio]]; simpl.
           ++ left. rewrite plays_app, Hpl. reflexivity.
           ++ rewrite plays_app, Hpl. simpl. unfold play_result.
              destruct (sd_play_error w audio rate) as [msg|] eqn:Hdev.
              ** right. exists audio, rate, msg. auto.
              ** exists audio, rate. auto.
        -- left. rewrite plays_app, Hpl. reflexivity.
      * left. rewrite plays_app, Hpl. reflexivity.
  - unfold speak. rewrite Hc. left. reflexivity.
Qed.

(** [speak] talks to two fixed endpoints only, the OAuth URL and the
    synthesis URL with one of the six voice codes, and every request it
    sends has certificate verification switched off. *)
Theorem speak_requests_are_unverified_and_fixed :
  forall (text voice : string) (w : World) (s : TokenCls) (req : Request),
    In req (posts (trace (speak text voice w s))) ->
    verify req = false
    /\ (url req = oauth_url
        \/ exists code, In code (map snd valid_voices)
                        /\ url req = synthesize_url ++ "?voice=" ++ code
                                     ++ "_24000").
Proof.
  intros text voice w s req Hin.
  destruct (contains (keys valid_voices) voice) eqn:Hc.
  - destruct (contains_get _ _ Hc) as [code Hcode].
    assert (Hcodes : In code (map snd valid_voices)).
    { clear -Hcode. revert Hcode. generalize valid_voices.
      induction d as [|[k v] d IH]; simpl; [discriminate|].
      destruct (String.eqb k voice).
      - intros [= ->]. left. reflexivity.
      - intros H. right. auto. }
    pose proof (get_token_requests_sent w s) as Hget.
    destruct (Token.get_token w s) as [[[e|tok] s1] t1] eqn:Hrun.
    + rewrite (speak_run text voice code w s Hcode), Hrun in Hin.
      unfold trace in Hin, Hget. simpl in Hin, Hget.
      rewrite (Hget req Hin). split; [|left]; reflexivity.
    + destruct (speak_after_token text voice code w s s1 tok t1 Hcode Hrun)
        as [_ Hposts].
      rewrite Hposts in Hin. apply in_app_or in Hin as [Hin|Hin].
      * unfold trace in Hget. simpl in Hget.
        rewrite (Hget req Hin). split; [|left]; reflexivity.
      * destruct Hin as [<-|[]]. split; [reflexivity|].
        right. exists code. split; [exact Hcodes | reflexivity].
  - unfold speak in Hin. rewrite Hc in Hin. destruct Hin.
Qed.

Lemma speak_requests_are_unverified_and_fixed_witness :
  let w := mkWorld (env_key "a2V5") 0 "u" (peer_ok "T" 99999 []) in
  verify (synthesize_request "Bys" (VStr "T") "Привет") = false
  /\ (url (synthesize_request "Bys" (VStr "T") "Привет") = oauth_url
      \/ exists code, In code (map snd valid_voices)
                      /\ url (synthesize_request "Bys" (VStr "T") "Привет")
                         = synthesize_url ++ "?voice=" ++ code ++ "_24000").
Proof.
  apply (speak_requests_are_unverified_and_fixed "Привет" "Борис"
           (mkWorld (env_key "a2V5") 0 "u" (peer_ok "T" 99999 []))
           Token_initial (synthesize_request "Bys" (VStr "T") "Привет")).
  simpl. right. left. reflexivity.
Defined.



(** ** Bodies that do not decode *)

Lemma bytes_eqb_eq (x y : list byte) : bytes_eqb x y = true <-> x = y.
Proof.
  revert y. induction x as [|a x IH]; intros [|c y]; simpl;
    try (split; [discriminate | discriminate]); [tauto|].
  rewrite andb_true_iff, IH. split.
  - intros [Hac ->]. apply Byte.byte_dec_bl in Hac. subst. reflexivity.
  - intros [= -> ->]. split; [apply Byte.byte_dec_lb|]; reflexivity.
Qed.

(** A body of fewer than eight bytes has no RIFF header. *)
Lemma open_truncated (body : list byte) :
  (List.length body < 8)%nat -> Wave.open body = inl EOFError.
Proof.
  intros Hlen. unfold Wave.open, Wave.Chunk_init.
  cbn [Wave.read Wave.BytesIO_FileLike]. unfold Wave.upto.
  rewrite length_firstn.
  destruct (Nat.ltb_spec
              (Nat.min (Z.to_nat (Z.min 4 (Z.of_nat (List.length body))))
                       (List.length body)) 4) as [H1|H1]; [reflexivity|].
  rewrite length_firstn, length_skipn.
  match goal with |- context [(?n <? 4)%nat] =>
    destruct (Nat.ltb_spec n 4) as [H2|H2]; [reflexivity|] end.
  exfalso. lia.
Qed.

(** A body of eight bytes or more that does not begin with [RIFF]. *)
Lemma open_without_RIFF (body : list byte) :
  (8 <= List.length body)%nat ->
  firstn 4 body <> b "RIFF" ->
  Wave.open body = inl (wave_Error "file does not start with RIFF id").
Proof.
  intros Hlen Hname. unfold Wave.open, Wave.Chunk_init.
  cbn [Wave.read Wave.BytesIO_FileLike]. unfold Wave.upto.
  rewrite !length_firstn, !length_skipn.
  replace (Z.to_nat (Z.min 4 (Z.of_nat (List.length body)))) with 4%nat
    by lia.
  replace (Z.to_nat (Z.min 4 (Z.of_nat (List.length body - 4)))) with 4%nat
    by lia.
  destruct (Nat.ltb_spec (Nat.min 4 (List.length body)) 4); [lia|].
  destruct (Nat.ltb_spec (Nat.min 4 (List.length body - 4)) 4); [lia|].
  cbn [Wave.chunkname].
  destruct (bytes_eqb (firstn 4 body) (b "RIFF")) eqn:Heq.
  - apply bytes_eqb_eq in Heq. contradiction.
  - reflexivity.
Qed.

(** A 200 answer whose body is not a RIFF file (compressed audio, an
    error text) makes [speak] raise the reader's error after the request
    has been sent; nothing is played. *)
Theorem speak_rejects_body_without_RIFF :
  forall (text voice code : string) (w : World) (s : TokenCls)
         (tok : value) (r : Response),
    Py.get valid_voices voice = Some code ->
    outcome (Token.get_token w s) = inr tok ->
    post w (synthesize_request code tok text) = Reply r ->
    status_code r = 200 ->
    (8 <= List.length (content r))%nat ->
    firstn 4 (content r) <> b "RIFF" ->
    outcome (speak text voice w s) =
      inl (wave_Error "file does not start with RIFF id")
    /\ plays (trace (speak text voice w s)) = [].
Proof.
  intros text voice code w s tok r Hcode Htok Hpost Hst Hlen Hname.
  rewrite (speak_run text voice code w s Hcode).
  pose proof (get_token_plays w s) as Hpl.
  unfold outcome in Htok. unfold trace in Hpl.
  destruct (Token.get_token w s) as [[[e|token] s1] t1]; simpl in Htok, Hpl;
    [discriminate|]. injection Htok as ->.
  cbv zeta. rewrite Hpost, Hst. unfold wav_decode.
  rewrite (open_without_RIFF _ Hlen Hname).
  unfold outcome, trace. simpl. split; [reflexivity|].
  rewrite plays_app, Hpl. reflexivity.
Qed.

Lemma speak_rejects_body_without_RIFF_witness :
  let w := mkWorld (env_key "a2V5") 0 "u"
                   (peer_ok "T" 99999 (b "OggS-not-a-wave-file")) in
  outcome (speak "Привет" "Борис" w Token_initial) =
    inl (wave_Error "file does not start with RIFF id")
  /\ plays (trace (speak "Привет" "Борис" w Token_initial)) = [].
Proof.
  apply (speak_rejects_body_without_RIFF "Привет" "Борис" "Bys"
           (mkWorld (env_key "a2V5") 0 "u"
                    (peer_ok "T" 99999 (b "OggS-not-a-wave-file")))
           Token_initial (VStr "T")
           (mkResponse 200 (b "OggS-not-a-wave-file")
              (Some [ ("access_token", VStr "T");
                      ("expires_at", VInt 99999) ]))).
  - reflexivity.
  - reflexivity.
  - reflexivity.
  - reflexivity.
  - simpl. lia.
  - discriminate.
Defined.

(** ** What is played *)

Lemma Z_of_byte_bound (x : byte) : 0 <= Z_of_byte x < 256.
Proof.
  unfold Z_of_byte. pose proof (Byte.to_N_bounded x). lia.
Qed.

Lemma le_uint_bound (bs : list byte) :
  0 <= le_uint bs < 256 ^ Z.of_nat (List.length bs).
Proof.
  induction bs as [|x bs IH].
  - simpl. lia.
  - cbn [le_uint List.length]. rewrite Nat2Z.inj_succ, Z.pow_succ_r by lia.
    pose proof (Z_of_byte_bound x). lia.
Qed.

Lemma signed16_range (u : Z) :
  0 <= u < 65536 -> -32768 <= signed16 u < 32768.
Proof.
  intros Hu. unfold signed16.
  destruct (u <? 32768)%Z eqn:Hc;
    [apply Z.ltb_lt in Hc | apply Z.ltb_ge in Hc]; lia.
Qed.

Lemma frombuffer_int16_range (n : nat) :
  forall (buf : list byte) (a : list Z),
    (List.length buf <= n)%nat ->
    frombuffer_int16 buf = Some a ->
    Forall (fun x => -32768 <= x < 32768) a.
Proof.
  induction n as [|n IH]; intros buf a Hn Hbuf.
  - destruct buf; [|simpl in Hn; lia].
    injection Hbuf as <-. constructor.
  - destruct buf as [|lo [|hi buf]].
    + injection Hbuf as <-. constructor.
    + discriminate.
    + cbn [frombuffer_int16] in Hbuf.
      destruct (frombuffer_int16 buf) as [a'|] eqn:Hrest; [|discriminate].
      assert (Ha : a = signed16 (le_uint [lo; hi]) :: a')
        by (injection Hbuf as Ha; symmetry; exact Ha).
      rewrite Ha. constructor.
      * apply signed16_range. exact (le_uint_bound [lo; hi]).
      * apply (IH buf a'); [simpl in Hn; lia | exact Hrest].
Qed.

Lemma read_fmt_chunk_framerate (chunk chunk' : Wave.SubChunk)
      (fm : Wave.Fmt) :
  Wave._read_fmt_chunk chunk = inr (fm, chunk') ->
  0 <= Wave.fmt_framerate fm < 4294967296.
Proof.
  unfold Wave._read_fmt_chunk.
  destruct (Wave.Chunk_read chunk 14) as [hdr chunk1].
  destruct (List.length hdr <? 14)%nat; [discriminate|].
  destruct (le_uint (slice hdr 0 2) =? Wave.WAVE_FORMAT_PCM)%Z;
    [|discriminate].
  destruct (Wave.Chunk_read chunk1 2) as [bits chunk2].
  destruct (List.length bits <? 2)%nat; [discriminate|].
  destruct ((le_uint bits + 7) / 8 =? 0)%Z; [discriminate|].
  destruct (le_uint (slice hdr 2 2) =? 0)%Z; [discriminate|].
  intros [= <- _]. cbn [Wave.fmt_framerate].
  pose proof (le_uint_bound (slice hdr 4 4)) as Hb.
  assert (Hl : (List.length (slice hdr 4 4) <= 4)%nat)
    by (unfold slice; rewrite length_firstn; lia).
  assert (256 ^ Z.of_nat (List.length (slice hdr 4 4)) <= 256 ^ 4)
    by (apply Z.pow_le_mono_r; lia).
  change (256 ^ 4) with 4294967296 in *. lia.
Qed.

Lemma read_chunks_framerate (fuel : nat) :
  forall (riff : Wave.Riff) (fmt : option Wave.Fmt) (wf : Wave.Wave_read),
    (forall fm, fmt = Some fm -> 0 <= Wave.fmt_framerate fm < 4294967296) ->
    Wave.read_chunks fuel riff fmt = inr wf ->
    0 <= Wave.getframerate wf < 4294967296.
Proof.
  induction fuel as [|fuel IH]; intros riff fmt wf Hfmt; [discriminate|].
  cbn [Wave.read_chunks].
  destruct (Wave.Chunk_init riff) as [chunk|]; [|discriminate].
  destruct (bytes_eqb (Wave.chunkname chunk) (b "fmt ")).
  - destruct (Wave._read_fmt_chunk chunk) as [e|[fm chunk']] eqn:Hread;
      [discriminate|].
    destruct (Wave.Chunk_skip chunk') as [riff'|]; [|discriminate].
    apply IH. intros fm' [= <-].
    exact (read_fmt_chunk_framerate _ _ _ Hread).
  - destruct (bytes_eqb (Wave.chunkname chunk) (b "data")).
    + destruct fmt as [fm|]; [|discriminate].
      intros [= <-]. apply Hfmt. reflexivity.
    + destruct (Wave.Chunk_skip chunk) as [riff'|]; [|discriminate].
      apply IH. exact Hfmt.
Qed.

(** What the decode step yields is always a rate below 2^32 and an
    array of signed 16-bit values. *)
Lemma wav_decode_range (body : list byte) (rate : Z) (audio : list Z) :
  wav_decode body = inr (rate, audio) ->
  0 <= rate < 4294967296
  /\ Forall (fun x => -32768 <= x < 32768) audio.
Proof.
  unfold wav_decode.
  destruct (Wave.open body) as [e|wf] eqn:Hopen; [discriminate|].
  destruct (frombuffer_int16 _) as [a|] eqn:Hbuf; [|discriminate].
  intros [= <- <-]. split.
  - unfold Wave.open in Hopen.
    destruct (Wave.Chunk_init _) as [riff|]; [|discriminate].
    destruct (negb _); [discriminate|].
    destruct (Wave.Chunk_read riff 4) as [form riff1].
    destruct (negb _); [discriminate|].
    eapply read_chunks_framerate; [|exact Hopen].
    intros fm Hfm. discriminate.
  - exact (frombuffer_int16_range _ _ _ (le_n _) Hbuf).
Qed.

(** Whatever the synthesis endpoint sends, what [speak] hands to the
    player is an array of signed 16-bit values at a rate below 2^32. *)
Theorem speak_plays_int16_samples :
  forall (text voice : string) (w : World) (s : TokenCls)
         (audio : list Z) (rate : Z),
    In (audio, rate) (plays (trace (speak text voice w s))) ->
    0 <= rate < 4294967296
    /\ Forall (fun x => -32768 <= x < 32768) audio.
Proof.
  intros text voice w s audio rate Hin.
  destruct (contains (keys valid_voices) voice) eqn:Hc.
  - destruct (contains_get _ _ Hc) as [code Hcode].
    rewrite (speak_run text voice code w s Hcode) in Hin.
    pose proof (get_token_plays w s) as Hpl. unfold trace in Hpl, Hin.
    destruct (Token.get_token w s) as [[[e|tok] s1] t1]; simpl in Hpl, Hin.
    + rewrite Hpl in Hin. destruct Hin.
    + destruct (post w _) as [r|]; simpl in Hin.
      * destruct (status_code r =? 200)%Z; simpl in Hin.
        -- destruct (wav_decode (content r)) as [e|[rate' audio']] eqn:Hdec;
             simpl in Hin; rewrite plays_app, Hpl in Hin; simpl in Hin.
           ++ destruct Hin.
           ++ destruct Hin as [[= <- <-]|[]].
              exact (wav_decode_range _ _ _ Hdec).
        -- rewrite plays_app, Hpl in Hin. destruct Hin.
      * rewrite plays_app, Hpl in Hin. destruct Hin.
  - unfold speak in Hin. rewrite Hc in Hin. destruct Hin.
Qed.

Lemma speak_plays_int16_samples_witness :
  0 <= 24000 < 4294967296
  /\ Forall (fun x => -32768 <= x < 32768) [1; -2; 300; -32768; 32767; 0].
Proof.
  apply (speak_plays_int16_samples "Привет" "Борис"
           (mkWorld (env_key "a2V5") 0 "u"
              (peer_ok "T" 99999
                 (wav_encode 1 24000 [1; -2; 300; -32768; 32767; 0])))
           Token_initial [1; -2; 300; -32768; 32767; 0] 24000).
  vm_compute. left. reflexivity.
Defined.

(** * The form *)

Lemma read_token_reply_not_ValueError (res : HttpResult) (m : string) :
  read_token_reply res <> inl (ValueError m).
Proof.
  unfold read_token_reply. destruct res as [r|]; [|discriminate].
  destruct (status_code r =? 200)%Z; [|discriminate].
  destruct (json r) as [d|]; [|discriminate].
  destruct (Py.get d "access_token"); [|discriminate].
  destruct (Py.get d "expires_at"); discriminate.
Qed.

Lemma get_token_not_ValueError (w : World) (s : TokenCls) (m : string) :
  outcome (Token.get_token w s) <> inl (ValueError m).
Proof.
  destruct (refresh_due w s) eqn:Hdue.
  - rewrite (get_token_refreshes w s Hdue).
    destruct (read_token_reply _) as [e|[tok exp]] eqn:Hreply;
      [|discriminate].
    unfold outcome. simpl. intros [= ->].
    exact (read_token_reply_not_ValueError _ _ Hreply).
  - destruct (_expires_in s) as [|x|e] eqn:Hexp.
    + rewrite get_token_served
        by first [assumption | intro; rewrite ?Hexp; discriminate].
      discriminate.
    + apply orb_false_iff in Hdue as [Hn _].
      rewrite (get_token_TypeError w s x Hn Hexp). discriminate.
    + rewrite get_token_served
        by first [assumption | intro; rewrite ?Hexp; discriminate].
      discriminate.
Qed.

Lemma read_chunks_not_ValueError (fuel : nat) :
  forall (riff : Wave.Riff) (fmt : option Wave.Fmt) (m : string),
    Wave.read_chunks fuel riff fmt <> inl (ValueError m).
Proof.
  induction fuel as [|fuel IH]; intros riff fmt m; [discriminate|].
  cbn [Wave.read_chunks].
  destruct (Wave.Chunk_init riff) as [chunk|]; [|discriminate].
  destruct (bytes_eqb (Wave.chunkname chunk) (b "fmt ")).
  - destruct (Wave._read_fmt_chunk chunk) as [e|[fm chunk']] eqn:Hread.
    + unfold Wave._read_fmt_chunk in Hread.
      destruct (Wave.Chunk_read chunk 14) as [hdr chunk1].
      destruct (List.length hdr <? 14)%nat; [injection Hread as <-; discriminate|].
      destruct (le_uint (slice hdr 0 2) =? Wave.WAVE_FORMAT_PCM)%Z;
        [|injection Hread as <-; discriminate].
      destruct (Wave.Chunk_read chunk1 2) as [bits chunk2].
      destruct (List.length bits <? 2)%nat;
        [injection Hread as <-; discriminate|].
      destruct ((le_uint bits + 7) / 8 =? 0)%Z;
        [injection Hread as <-; discriminate|].
      destruct (le_uint (slice hdr 2 2) =? 0)%Z;
        [injection Hread as <-; discriminate | discriminate].
    + destruct (Wave.Chunk_skip chunk') as [riff'|]; [apply IH|discriminate].
  - destruct (bytes_eqb (Wave.chunkname chunk) (b "data")).
    + destruct fmt; discriminate.
    + destruct (Wave.Chunk_skip chunk) as [riff'|]; [apply IH|discriminate].
Qed.

(** The one [ValueError] of the decode step is numpy's. *)
Lemma wav_decode_ValueError (body : list byte) (m : string) :
  wav_decode body = inl (ValueError m) ->
  m = "buffer size must be a multiple of element size".
Proof.
  unfold wav_decode.
  destruct (Wave.open body) as [e|wf] eqn:Hopen.
  - intros [= ->]. exfalso. unfold Wave.open in Hopen.
    destruct (Wave.Chunk_init _) as [riff|]; [|discriminate].
    destruct (negb _); [discriminate|].
    destruct (Wave.Chunk_read riff 4) as [form riff1].
    destruct (negb _); [discriminate|].
    exact (read_chunks_not_ValueError _ _ _ _ Hopen).
  - destruct (frombuffer_int16 _); [discriminate|].
    intros [= <-]. reflexivity.
Qed.

(** The form offers exactly the voices [speak] accepts: for a voice of
    the combo box, and for no other, [speak] never raises the error for
    an invalid voice. *)
Theorem form_offers_exactly_the_valid_voices :
  forall voice : string,
    In voice combo_box_items <->
    (forall (text : string) (w : World) (s : TokenCls),
        outcome (speak text voice w s)
        <> inl (ValueError (invalid_voice_message voice))).
Proof.
  intros voice. split.
  - intros Hin text w s.
    assert (Hc : contains (keys valid_voices) voice = true)
      by (apply contains_In; exact Hin).
    destruct (contains_get _ _ Hc) as [code Hcode].
    rewrite (speak_run text voice code w s Hcode).
    pose proof (get_token_not_ValueError w s (invalid_voice_message voice))
      as Hget.
    unfold outcome in Hget |- *.
    destruct (Token.get_token w s) as [[[e|tok] s1] t1];
      cbn [fst] in Hget |- *;
      [intros [= ->]; apply Hget; reflexivity|].
    cbv zeta.
    destruct (post w _) as [r|]; simpl; [|discriminate].
    destruct (status_code r =? 200)%Z; simpl; [|discriminate].
    destruct (wav_decode (content r)) as [e|[rate audio]] eqn:Hdec; simpl;
      [|unfold play_result; destruct (sd_play_error _ _ _); discriminate].
    intros [= ->]. apply wav_decode_ValueError in Hdec.
    unfold invalid_voice_message in Hdec. discriminate.
  - intros Hnever.
    destruct (contains (keys valid_voices) voice) eqn:Hc.
    + apply contains_In in Hc. exact Hc.
    + exfalso. apply (Hnever "" (mkWorld env_absent 0 "" (peer_status 500))
                        Token_initial).
      unfold speak. rewrite Hc. reflexivity.
Qed.

Lemma core_map_Core (t : list Event) : core (map Core t) = t.
Proof. induction t as [|e t IH]; simpl; [|rewrite IH]; reflexivity. Qed.

Lemma notices_map_Core (t : list Event) : notices (map Core t) = [].
Proof. induction t as [|e t IH]; simpl; auto. Qed.

(** What [onSpeak] leaves behind: the effects and the cache of [speak],
    followed by one notice with the text of the exception if there was
    one. *)
Lemma onSpeak_run (lib_text : exn -> string) (text voice : string)
      (w : World) (s : TokenCls) :
  fst (onSpeak lib_text text voice w s) = final (speak text voice w s)
  /\ core (snd (onSpeak lib_text text voice w s)) =
       trace (speak text voice w s)
  /\ notices (snd (onSpeak lib_text text voice w s)) =
       match outcome (speak text voice w s) with
       | inr _ => []
       | inl e => [("Ошибка", "Произошла ошибка: " ++ str_exn lib_text e)]
       end.
Proof.
  unfold onSpeak, final, trace, outcome.
  destruct (speak text voice w s) as [[[e|u] s1] t]; simpl.
  - unfold core, notices. rewrite !flat_map_app.
    fold (core (map Core t)). fold (notices (map Core t)).
    rewrite core_map_Core, notices_map_Core. simpl.
    rewrite app_nil_r. repeat split.
  - rewrite core_map_Core, notices_map_Core. repeat split.
Qed.

(** A press of the button ends in exactly one of two ways.  Either
    the audio was handed to the player once, the player played it, and
    no notice is shown.  Or one notice is shown, as the last effect; the
    player was then never called, or it was called once and raised, and
    the notice carries the player's message. *)
Theorem onSpeak_plays_or_notifies :
  forall (lib_text : exn -> string) (text voice : string) (w : World)
         (s : TokenCls),
    let ui := snd (onSpeak lib_text text voice w s) in
    (notices ui = []
     /\ exists audio rate,
          plays (core ui) = [(audio, rate)]
          /\ sd_play_error w audio rate = None)
    \/
    (exists msg before,
        notices ui = [("Ошибка", "Произошла ошибка: " ++ msg)]
        /\ ui = (before ++ [QMessageBox_critical
                              "Ошибка" ("Произошла ошибка: " ++ msg)])%list
        /\ (plays (core ui) = []
            \/ exists audio rate,
                 plays (core ui) = [(audio, rate)]
                 /\ sd_play_error w audio rate = Some msg)).
Proof.
  intros lib_text text voice w s. cbv zeta.
  destruct (onSpeak_run lib_text text voice w s) as [_ [Hcore Hnot]].
  assert (Hplay :
            match outcome (speak text voice w s) with
            | inr _ =>
                exists audio rate,
                  plays (trace (speak text voice w s)) = [(audio, rate)]
                  /\ sd_play_error w audio rate = None
            | inl e =>
                plays (trace (speak text voice w s)) = []
                \/ exists audio rate,
                     plays (trace (speak text voice w s)) = [(audio, rate)]
                     /\ sd_play_error w audio rate = Some (str_exn lib_text e)
            end).
  { destruct (contains (keys valid_voices) voice) eqn:Hc.
    - destruct (contains_get _ _ Hc) as [code Hcode].
      rewrite (speak_run text voice code w s Hcode).
      pose proof (get_token_plays w s) as Hpl. unfold trace in Hpl.
      destruct (Token.get_token w s) as [[[e|tok] s1] t1]; simpl in Hpl.
      + left. exact Hpl.
      + cbv zeta. unfold outcome, trace.
        destruct (post w _) as [r|]; simpl.
        * destruct (status_code r =? 200)%Z; simpl.
          -- destruct (wav_decode (content r)) as [e|[rate audio]]; simpl.
             ++ left. rewrite plays_app, Hpl. reflexivity.
             ++ rewrite plays_app, Hpl. simpl. unfold play_result.
                destruct (sd_play_error w audio rate) as [msg|] eqn:Hdev.
                ** right. exists audio, rate. auto.
                ** exists audio, rate. auto.
          -- left. rewrite plays_app, Hpl. reflexivity.
        * left. rewrite plays_app, Hpl. reflexivity.
    - unfold speak. rewrite Hc. left. reflexivity. }
  rewrite Hcore, Hnot.
  unfold onSpeak. unfold outcome, trace in *.
  destruct (speak text voice w s) as [[[e|u] s1] t]; cbn [fst snd] in *.
  - right. exists (str_exn lib_text e), (map Core t).
    split; [reflexivity|]. split; [reflexivity | exact Hplay].
  - left. split; [reflexivity | exact Hplay].
Qed.

(** A synthesis answer other than 200 is shown to the user as
    [Произошла ошибка: Failed to synthesize speech], and nothing is
    played. *)
Theorem onSpeak_reports_failed_synthesis :
  forall (lib_text : exn -> string) (text voice code : string) (w : World)
         (s : TokenCls) (tok : value) (r : Response),
    Py.get valid_voices voice = Some code ->
    outcome (Token.get_token w s) = inr tok ->
    post w (synthesize_request code tok text) = Reply r ->
    status_code r <> 200 ->
    notices (snd (onSpeak lib_text text voice w s)) =
      [("Ошибка", "Произошла ошибка: Failed to synthesize speech")]
    /\ plays (core (snd (onSpeak lib_text text voice w s))) = [].
Proof.
  intros lib_text text voice code w s tok r Hcode Htok Hpost Hst.
  destruct (onSpeak_run lib_text text voice w s) as [_ [Hcore Hnot]].
  rewrite Hcore, Hnot. clear Hcore Hnot.
  rewrite (speak_run text voice code w s Hcode).
  pose proof (get_token_plays w s) as Hpl.
  unfold outcome in Htok. unfold trace in Hpl.
  destruct (Token.get_token w s) as [[[e|token] s1] t1]; simpl in Htok, Hpl;
    [discriminate|]. injection Htok as ->.
  cbv zeta. rewrite Hpost.
  apply Z.eqb_neq in Hst. rewrite Hst.
  unfold outcome, trace. simpl. split; [reflexivity|].
  rewrite plays_app, Hpl. reflexivity.
Qed.

Lemma onSpeak_reports_failed_synthesis_witness :
  let w := mkWorld (env_key "a2V5") 0 "u" (peer_synth_status "T" 99999 500) in
  notices (snd (onSpeak (fun _ => "") "Привет" "Борис" w Token_initial)) =
    [("Ошибка", "Произошла ошибка: Failed to synthesize speech")]
  /\ plays (core (snd (onSpeak (fun _ => "") "Привет" "Борис" w
                         Token_initial))) = [].
Proof.
  apply (onSpeak_reports_failed_synthesis (fun _ => "")
           "Привет" "Борис" "Bys"
           (mkWorld (env_key "a2V5") 0 "u" (peer_synth_status "T" 99999 500))
           Token_initial (VStr "T") (mkResponse 500 [] None)).
  - reflexivity.
  - reflexivity.
  - reflexivity.
  - simpl. lia.
Defined.

(** A token answer other than 200 is shown to the user as
    [Произошла ошибка: Failed to obtain token]; the OAuth request is the
    only one sent, nothing is played, and the cached token and expiry
    are what they were. *)
Theorem onSpeak_reports_failed_token :
  forall (lib_text : exn -> string) (text voice code : string) (w : World)
         (s : TokenCls) (r : Response),
    Py.get valid_voices voice = Some code ->
    refresh_due w s = true ->
    post w (oauth_request (authdata_for w s) (uuid4 w)) = Reply r ->
    status_code r <> 200 ->
    let ui := snd (onSpeak lib_text text voice w s) in
    let cls := fst (onSpeak lib_text text voice w s) in
    notices ui = [("Ошибка", "Произошла ошибка: Failed to obtain token")]
    /\ posts (core ui) = [oauth_request (authdata_for w s) (uuid4 w)]
    /\ plays (core ui) = []
    /\ _token cls = _token s
    /\ _expires_in cls = _expires_in s.
Proof.
  intros lib_text text voice code w s r Hcode Hdue Hpost Hst. cbv zeta.
  destruct (onSpeak_run lib_text text voice w s) as [Hfst [Hcore Hnot]].
  rewrite Hfst, Hcore, Hnot. clear Hfst Hcore Hnot.
  rewrite (speak_run text voice code w s Hcode).
  rewrite (get_token_refreshes w s Hdue), Hpost.
  unfold read_token_reply. apply Z.eqb_neq in Hst. rewrite Hst.
  unfold outcome, final, trace. simpl.
  rewrite refresh_trace_posts, refresh_trace_plays. repeat split.
Qed.

Lemma onSpeak_reports_failed_token_witness :
  let w := mkWorld (env_key "a2V5") 20000 "u" (peer_status 401) in
  let s := cached "a2V5" "old" (VInt 10000) in
  let ui := snd (onSpeak (fun _ => "") "Привет" "Борис" w s) in
  let cls := fst (onSpeak (fun _ => "") "Привет" "Борис" w s) in
  notices ui = [("Ошибка", "Произошла ошибка: Failed to obtain token")]
  /\ posts (core ui) = [oauth_request (authdata_for w s) (uuid4 w)]
  /\ plays (core ui) = []
  /\ _token cls = _token s
  /\ _expires_in cls = _expires_in s.
Proof.
  apply (onSpeak_reports_failed_token (fun _ => "") "Привет" "Борис" "Bys"
           (mkWorld (env_key "a2V5") 20000 "u" (peer_status 401))
           (cached "a2V5" "old" (VInt 10000)) (mkResponse 401 [] None)).
  - reflexivity.
  - reflexivity.
  - reflexivity.
  - simpl. lia.
Defined.

(** A 200 answer with a body of fewer than eight bytes (an empty one
    included) ends in [EOFError], whose text is empty: the notice reads
    [Произошла ошибка: ] with nothing after it, and nothing is played. *)
Theorem onSpeak_truncated_body_gives_empty_notice :
  forall (lib_text : exn -> string) (text voice code : string) (w : World)
         (s : TokenCls) (tok : value) (r : Response),
    Py.get valid_voices voice = Some code ->
    outcome (Token.get_token w s) = inr tok ->
    post w (synthesize_request code tok text) = Reply r ->
    status_code r = 200 ->
    (List.length (content r) < 8)%nat ->
    outcome (speak text voice w s) = inl EOFError
    /\ notices (snd (onSpeak lib_text text voice w s)) =
         [("Ошибка", "Произошла ошибка: ")]
    /\ plays (core (snd (onSpeak lib_text text voice w s))) = [].
Proof.
  intros lib_text text voice code w s tok r Hcode Htok Hpost Hst Hlen.
  destruct (onSpeak_run lib_text text voice w s) as [_ [Hcore Hnot]].
  rewrite Hcore, Hnot. clear Hcore Hnot.
  rewrite (speak_run text voice code w s Hcode).
  pose proof (get_token_plays w s) as Hpl.
  unfold outcome in Htok. unfold trace in Hpl.
  destruct (Token.get_token w s) as [[[e|token] s1] t1]; simpl in Htok, Hpl;
    [discriminate|]. injection Htok as ->.
  cbv zeta. rewrite Hpost, Hst. unfold wav_decode.
  rewrite (open_truncated _ Hlen).
  unfold outcome, trace. simpl. split; [reflexivity|].
  split; [reflexivity|].
  rewrite plays_app, Hpl. reflexivity.
Qed.

Lemma onSpeak_truncated_body_gives_empty_notice_witness :
  let w := mkWorld (env_key "a2V5") 0 "u" (peer_ok "T" 99999 []) in
  outcome (speak "Привет" "Борис" w Token_initial) = inl EOFError
  /\ notices (snd (onSpeak (fun _ => "?") "Привет" "Борис" w Token_initial))
     = [("Ошибка", "Произошла ошибка: ")]
  /\ plays (core (snd (onSpeak (fun _ => "?") "Привет" "Борис" w
                         Token_initial))) = [].
Proof.
  apply (onSpeak_truncated_body_gives_empty_notice (fun _ => "?")
           "Привет" "Борис" "Bys"
           (mkWorld (env_key "a2V5") 0 "u" (peer_ok "T" 99999 []))
           Token_initial (VStr "T")
           (mkResponse 200 []
              (Some [ ("access_token", VStr "T");
                      ("expires_at", VInt 99999) ]))).
  - reflexivity.
  - reflexivity.
  - reflexivity.
  - reflexivity.
  - simpl. lia.
Defined.

(** * The chunk loop ends *)

Section Fuel.
Import Wave.

Lemma BytesIO_read_length (f f' : BytesIO) (n : Z) (d : list byte) :
  read f n = (d, f') ->
  (List.length d + List.length f' = List.length f)%nat.
Proof.
  cbn [read BytesIO_FileLike]. intros [= <- <-].
  rewrite <- length_app, firstn_skipn. reflexivity.
Qed.

(** A read through the RIFF chunk takes what it returns, and at most one
    pad byte more, from the body. *)
Lemma Riff_read_length (c c' : Riff) (n : Z) (d : list byte) :
  Chunk_read c n = (d, c') ->
  (List.length d + List.length (file c') <= List.length (file c))%nat.
Proof.
  unfold Chunk_read.
  destruct (chunksize c <=? size_read c)%Z.
  - intros [= <- <-]. simpl. lia.
  - destruct (read (file c) _) as [data f1] eqn:H1.
    apply BytesIO_read_length in H1.
    destruct (_ && _).
    + destruct (read f1 1) as [dummy f2] eqn:H2.
      apply BytesIO_read_length in H2.
      intros [= <- <-]. cbn [file]. lia.
    + intros [= <- <-]. cbn [file]. lia.
Qed.

Lemma SubChunk_read_length (c c' : SubChunk) (n : Z) (d : list byte) :
  Chunk_read c n = (d, c') ->
  (List.length (file (file c')) <= List.length (file (file c)))%nat.
Proof.
  unfold Chunk_read at 1.
  destruct (chunksize c <=? size_read c)%Z.
  - intros [= <- <-]. lia.
  - destruct (read (file c) _) as [data f1] eqn:H1.
    apply Riff_read_length in H1.
    destruct (_ && _).
    + destruct (read f1 1) as [dummy f2] eqn:H2.
      apply Riff_read_length in H2.
      intros [= <- <-]. cbn [file]. lia.
    + intros [= <- <-]. cbn [file]. lia.
Qed.

(** A chunk header costs the body eight bytes. *)
Lemma Chunk_init_Riff_length (riff : Riff) (chunk : SubChunk) :
  Chunk_init riff = Some chunk ->
  (8 + List.length (file (file chunk)) <= List.length (file riff))%nat.
Proof.
  unfold Chunk_init.
  destruct (read riff 4) as [name f1] eqn:H1.
  apply Riff_read_length in H1.
  destruct (Nat.ltb_spec (List.length name) 4); [discriminate|].
  destruct (read f1 4) as [sz f2] eqn:H2.
  apply Riff_read_length in H2.
  destruct (Nat.ltb_spec (List.length sz) 4); [discriminate|].
  intros [= <-]. cbn [file]. lia.
Qed.

Lemma Chunk_skip_length (chunk : SubChunk) (riff' : Riff) :
  Chunk_skip chunk = Some riff' ->
  (List.length (file riff') <= List.length (file (file chunk)))%nat.
Proof.
  unfold Chunk_skip. cbn [seek_cur Chunk_FileLike]. unfold Chunk_seek_cur.
  destruct (_ || _); [discriminate|].
  cbn [seek_cur BytesIO_FileLike]. intros [= <-]. cbn [file].
  rewrite length_skipn. lia.
Qed.

Lemma read_fmt_chunk_length (chunk chunk' : SubChunk) (fm : Fmt) :
  _read_fmt_chunk chunk = inr (fm, chunk') ->
  (List.length (file (file chunk')) <= List.length (file (file chunk)))%nat.
Proof.
  unfold _read_fmt_chunk.
  destruct (Chunk_read chunk 14) as [hdr chunk1] eqn:H1.
  apply SubChunk_read_length in H1.
  destruct (List.length hdr <? 14)%nat; [discriminate|].
  destruct (le_uint (slice hdr 0 2) =? WAVE_FORMAT_PCM)%Z; [|discriminate].
  destruct (Chunk_read chunk1 2) as [bits chunk2] eqn:H2.
  apply SubChunk_read_length in H2.
  destruct (List.length bits <? 2)%nat; [discriminate|].
  destruct ((le_uint bits + 7) / 8 =? 0)%Z; [discriminate|].
  destruct (le_uint (slice hdr 2 2) =? 0)%Z; [discriminate|].
  intros [= _ <-]. lia.
Qed.

(** Two bounds on the rounds of the chunk loop that both exceed an
    eighth of what is left of the body give the same result. *)
Lemma read_chunks_fuel (fuel1 : nat) :
  forall (fuel2 : nat) (riff : Riff) (fmt : option Fmt),
    (List.length (file riff) < 8 * fuel1)%nat ->
    (List.length (file riff) < 8 * fuel2)%nat ->
    read_chunks fuel1 riff fmt = read_chunks fuel2 riff fmt.
Proof.
  induction fuel1 as [|fuel1 IH]; intros fuel2 riff fmt H1 H2; [lia|].
  destruct fuel2 as [|fuel2]; [lia|].
  cbn [read_chunks].
  destruct (Chunk_init riff) as [chunk|] eqn:Hinit; [|reflexivity].
  apply Chunk_init_Riff_length in Hinit.
  destruct (bytes_eqb (chunkname chunk) (b "fmt ")).
  - destruct (_read_fmt_chunk chunk) as [e|[fm chunk']] eqn:Hfmt;
      [reflexivity|].
    apply read_fmt_chunk_length in Hfmt.
    destruct (Chunk_skip chunk') as [riff'|] eqn:Hskip; [|reflexivity].
    apply Chunk_skip_length in Hskip. apply IH; lia.
  - destruct (bytes_eqb (chunkname chunk) (b "data")); [reflexivity|].
    destruct (Chunk_skip chunk) as [riff'|] eqn:Hskip; [|reflexivity].
    apply Chunk_skip_length in Hskip. apply IH; lia.
Qed.

(** Opening a body always ends by what the body holds: every round of
    the chunk loop takes at least eight bytes, so the bound on the
    rounds is never what stops it, and any larger bound gives the same
    reader or the same error. *)
Theorem open_ends_before_its_bound :
  forall (body : list byte) (more : nat),
    Wave.open body =
      match Chunk_init (body : BytesIO) with
      | None => inl EOFError
      | Some riff =>
          if negb (bytes_eqb (chunkname riff) (b "RIFF")) then
            inl (wave_Error "file does not start with RIFF id")
          else
            let (form, riff1) := Chunk_read riff 4 in
            if negb (bytes_eqb form (b "WAVE")) then
              inl (wave_Error "not a WAVE file")
            else read_chunks (S (List.length body) + more) riff1 None
      end.
Proof.
  intros body more. unfold Wave.open.
  destruct (Chunk_init (body : BytesIO)) as [riff|] eqn:Hinit;
    [|reflexivity].
  destruct (negb _); [reflexivity|].
  destruct (Chunk_read riff 4) as [form riff1] eqn:Hread.
  destruct (negb _); [reflexivity|].
  apply Riff_read_length in Hread.
  assert (Hriff : (List.length (file riff) <= List.length body)%nat).
  { unfold Chunk_init in Hinit.
    destruct (read (body : BytesIO) 4) as [name f1] eqn:H1.
    apply BytesIO_read_length in H1.
    destruct (List.length name <? 4)%nat; [discriminate|].
    destruct (read f1 4) as [sz f2] eqn:H2.
    apply BytesIO_read_length in H2.
    destruct (List.length sz <? 4)%nat; [discriminate|].
    injection Hinit as <-. cbn [file]. lia. }
  apply read_chunks_fuel; lia.
Qed.
End Fuel.
